(** * year_collator: a shallow embedding and its verified properties

    The development follows [year_collator.py]: the collision-free path
    allocator [nextPath], the grid assembler [readascii], the per-year
    assembler [fullyr] with [outcube], the two schedulers
    [singleprocess_rcp] and [multiprocess_rcp], and the series merger
    [catdata].

    Conventions of the embedding.
    - Python [str] is [string]; Python [int] is [Z].
    - Python [float] values are only ever copied, compared or combined on
      the half-degree mesh; they are embedded as exact rationals [Q] and
      [==] on floats is [Qeq_bool].
    - A raised exception is a value of [exn]; code that may raise returns
      [result].
    - [os.path.exists] sees a finite set of existing paths
      ([gset string]); the files the program writes live in a finite map
      from paths to containers and directories; the read-only input tree
      is a list of year directories.
    - A run takes two things from outside the file system: the whole
      seconds between its two readings of the clock, and, when tasks of a
      process pool fail, which of them finishes first.  Both are
      arguments of the schedulers. *)

From stdpp Require Import gmap strings list sorting pretty.
From Stdlib Require Import Ascii QArith Qround.

Open Scope Z_scope.

(** ** Exceptions and results *)

Inductive exn : Type :=
  | FileError          (* errlib.FileError raised by readascii *)
  | KeyError           (* missing label or dict key *)
  | IndexError         (* a[0][0] on an empty index array, catlist[0] on [] *)
  | UnboundLocalError  (* local read before assignment *)
  | ValueError         (* int() of a non-number, bad section count, bad format *)
  | TypeError          (* the % operator finds no argument for a conversion *)
  | ZeroDivisionError
  | OSError            (* IOError of iris: the array file cannot be created *)
  | FileNotFoundError  (* os.remove / os.makedirs on a missing path *)
  | IsADirectoryError  (* os.remove on a directory *)
  | ArgumentsError     (* errlib.ArgumentsError raised by main *)
  | NCOException       (* the external nco operation failed *)
  | Diverges.          (* a loop of the program does not terminate *)

Inductive result (A : Type) : Type :=
  | Ok (a : A)
  | Raise (e : exn).
Arguments Ok {A} a.
Arguments Raise {A} e.

#[global] Instance result_ret : MRet result := fun A a => Ok a.
#[global] Instance result_bind : MBind result := fun A B k m =>
  match m with
  | Ok a => k a
  | Raise e => Raise e
  end.

Definition of_option {A} (e : exn) (o : option A) : result A :=
  match o with
  | Some a => Ok a
  | None => Raise e
  end.

Definition is_ok {A} (r : result A) : bool :=
  match r with Ok _ => true | Raise _ => false end.

#[global] Instance exn_eq_dec : EqDecision exn.
Proof. solve_decision. Defined.

(** ** The file system seen through [os.path.exists] *)

Module Fs.

Definition exists_ (fs : gset string) (p : string) : bool :=
  bool_decide (p ∈ fs).

End Fs.

(** ** nextPath

    [path_pattern] is a string with one [%s]; it is kept as the text
    before and the text after the [%s], so that [path_pattern % i] is
    [fmt pat i].  How the [%] operator reads the pattern string that
    [outcube] builds, and what it raises on it, is [Py.percent_pattern]
    below. *)

Record pattern : Type := Pattern { pat_pre : string; pat_post : string }.

Definition fmt (pat : pattern) (i : Z) : string :=
  pat_pre pat +:+ pretty i +:+ pat_post pat.

(** [while os.path.exists(path_pattern % i): i = i * 2].  The loop probes
    pairwise different paths, all of which exist, so on a finite file
    system it runs at most [size fs] rounds before the test fails;
    [fuel] counts the tests. *)
Fixpoint exp_search (fuel : nat) (fs : gset string) (pat : pattern) (i : Z)
  : option Z :=
  match fuel with
  | O => None
  | S fuel' =>
      if Fs.exists_ fs (fmt pat i)
      then exp_search fuel' fs pat (i * 2)
      else Some i
  end.

(** [while a + 1 < b: c = (a + b) // 2; a, b = (c, b) if exists(c) else (a, c)].
    The interval shrinks at every round, so [b - a] rounds are enough. *)
Fixpoint bin_search (fuel : nat) (fs : gset string) (pat : pattern) (a b : Z)
  : Z :=
  match fuel with
  | O => b
  | S fuel' =>
      if a + 1 <? b then
        let c := (a + b) `div` 2 in
        if Fs.exists_ fs (fmt pat c)
        then bin_search fuel' fs pat c b
        else bin_search fuel' fs pat a c
      else b
  end.

Definition nextPath (fs : gset string) (pat : pattern) : option string :=
  i ← exp_search (S (size fs)) fs pat 1;
  let a := i `div` 2 in
  let b := i in
  Some (fmt pat (bin_search (Z.to_nat (b - a)) fs pat a b)).

(** ** Python string operations used by the program *)

Module Py.

(** [s.split(c)] for a one-character separator. *)
Fixpoint split (c : Ascii.ascii) (s : string) : list string :=
  match s with
  | EmptyString => [EmptyString]
  | String a s' =>
      if Ascii.eqb a c then EmptyString :: split c s'
      else match split c s' with
           | [] => [String a EmptyString]
           | w :: ws => String a w :: ws
           end
  end.

(** [l[-k]] for [k >= 1]; [None] stands for IndexError. *)
Definition neg_index {A} (l : list A) (k : nat) : option A :=
  if decide (1 ≤ k ≤ length l)%nat then l !! (length l - k)%nat else None.

(** [s[:-k]] *)
Definition drop_last (k : nat) (s : string) : string :=
  String.string_of_list_ascii
    (take (String.length s - k)%nat (String.list_ascii_of_string s)).

(** [s[1:]] *)
Definition tail (s : string) : string :=
  match s with
  | EmptyString => EmptyString
  | String _ s' => s'
  end.

Definition digit (a : Ascii.ascii) : option Z :=
  let n := Z.of_N (Ascii.N_of_ascii a) in
  if (48 <=? n) && (n <=? 57) then Some (n - 48) else None.

Fixpoint digits_acc (acc : Z) (s : string) : option Z :=
  match s with
  | EmptyString => Some acc
  | String a s' => d ← digit a; digits_acc (acc * 10 + d) s'
  end.

(** A non-empty run of decimal digits. *)
Definition digits (s : string) : option Z :=
  match s with
  | EmptyString => None
  | _ => digits_acc 0 s
  end.

(** [int(s)] on an optionally signed decimal numeral; [None] stands for
    ValueError.  (Surrounding blanks and digit-group underscores, which
    Python also accepts, do not occur in the headers handled here.) *)
Definition int (s : string) : option Z :=
  match s with
  | String "-"%char s' => Z.opp <$> digits s'
  | String "+"%char s' => digits s'
  | _ => digits s
  end.

(** [float(s)] on plain decimal notation [d*], [d*.d*] with an optional
    sign, read as an exact rational; [None] stands for ValueError. *)
Definition ufloat (s : string) : option Q :=
  match split "."%char s with
  | [ip] => inject_Z <$> digits ip
  | [ip; fp] =>
      match ip, fp with
      | EmptyString, EmptyString => None
      | _, _ =>
          i ← digits_acc 0 ip;
          f ← digits_acc 0 fp;
          Some (inject_Z i + (f # Pos.pow 10 (Pos.of_nat (String.length fp))))%Q
      end
  | _ => None
  end.

Definition float (s : string) : option Q :=
  match s with
  | String "-"%char s' => Qopp <$> ufloat s'
  | String "+"%char s' => ufloat s'
  | _ => ufloat s
  end.

(** [int(x)] of a float: truncation towards zero. *)
Definition trunc (q : Q) : Z :=
  if Qle_bool 0 q then Qfloor q else Qceiling q.

Fixpoint rstrip_rev (c : Ascii.ascii) (r : list Ascii.ascii)
  : list Ascii.ascii :=
  match r with
  | a :: r' => if Ascii.eqb a c then rstrip_rev c r' else r
  | [] => []
  end.

(** [s.rstrip(c)] *)
Definition rstrip (c : Ascii.ascii) (s : string) : string :=
  String.string_of_list_ascii
    (reverse (rstrip_rev c (reverse (String.list_ascii_of_string s)))).

(** Splits the reversed path at its first ["/"]:
    the reversed tail and the reversed head, the head keeping the slash. *)
Fixpoint rsplit_slash (r : list Ascii.ascii)
  : list Ascii.ascii * list Ascii.ascii :=
  match r with
  | [] => ([], [])
  | a :: r' =>
      if Ascii.eqb a "/"%char then ([], r)
      else let '(t, h) := rsplit_slash r' in (a :: t, h)
  end.

(** [os.path.split(p)] (posixpath) *)
Definition os_path_split (p : string) : string * string :=
  let '(t, h) := rsplit_slash (reverse (String.list_ascii_of_string p)) in
  let head := String.string_of_list_ascii (reverse h) in
  let tail := String.string_of_list_ascii (reverse t) in
  let head' :=
    if forallb (Ascii.eqb "/"%char) h then head else rstrip "/"%char head in
  (head', tail).

(** [a <= b] on [str]: lexicographic on the character codes. *)
Fixpoint str_le (a b : string) : bool :=
  match a, b with
  | EmptyString, _ => true
  | String _ _, EmptyString => false
  | String x a', String y b' =>
      let nx := Ascii.N_of_ascii x in
      let ny := Ascii.N_of_ascii y in
      if (nx <? ny)%N then true
      else if (ny <? nx)%N then false
      else str_le a' b'
  end.

(** A [dict] literal as its item list; [None] stands for KeyError. *)
Fixpoint dict_get {V} (d : list (string * V)) (k : string) : option V :=
  match d with
  | [] => None
  | (k', v) :: d' => if String.eqb k' k then Some v else dict_get d' k
  end.

(** [stem + '_%s.nc'] as the [%] operator reads it when it is applied to
    one [int]: the text is copied, [%%] (also with flags, a width or a
    precision before the second [%]) gives one [%], and any other
    conversion takes the next argument.  The only argument is meant for
    the [%s] that follows the stem; a conversion in the stem that takes it
    leaves none for the [%s].

    The reading of the stem is a scan over its characters; [fmt_stage] is
    the place inside a conversion specifier, [fs_arg] tells whether the
    argument is still there. *)
Inductive fmt_stage : Type :=
  | FText                 (* outside a specifier *)
  | FStart                (* just after the [%] *)
  | FFlags                (* after a flag *)
  | FWidth (acc : Z)      (* inside the digits of the width *)
  | FAfterWidth           (* after a [*] width *)
  | FPrecStart            (* just after the [.] *)
  | FPrec (acc : Z)       (* inside the digits of the precision *)
  | FAfterPrec            (* after a [*] precision *)
  | FConv.                (* after a length modifier *)

Record fmt_state : Type := FmtState {
  fs_lit : string;
  fs_arg : bool;
  fs_stage : fmt_stage
}.

Definition is_flag (c : Ascii.ascii) : bool :=
  existsb (Ascii.eqb c) ["-"; "+"; " "; "#"; "0"]%char.

Definition is_conversion (c : Ascii.ascii) : bool :=
  existsb (Ascii.eqb c)
    ["d"; "i"; "o"; "u"; "x"; "X"; "e"; "E"; "f"; "F"; "g"; "G"; "c"; "r";
     "s"; "a"]%char.

Definition emit (c : Ascii.ascii) (st : fmt_state) : fmt_state :=
  FmtState (fs_lit st +:+ String c EmptyString) (fs_arg st) FText.

(** The argument is taken: by a [*], or by a conversion. *)
Definition take_arg (st : fmt_state) (stage : fmt_stage) : result fmt_state :=
  if fs_arg st then Ok (FmtState (fs_lit st) false stage)
  else Raise TypeError.

Definition at_conv (c : Ascii.ascii) (st : fmt_state) : result fmt_state :=
  if Ascii.eqb c "%"%char then Ok (emit c st)
  else
    st' ← take_arg st FText;
    if is_conversion c then Ok st' else Raise ValueError.

Definition at_lenmod (c : Ascii.ascii) (st : fmt_state) : result fmt_state :=
  if existsb (Ascii.eqb c) ["h"; "l"; "L"]%char
  then Ok (FmtState (fs_lit st) (fs_arg st) FConv)
  else at_conv c st.

Definition at_prec (c : Ascii.ascii) (st : fmt_state) : result fmt_state :=
  if Ascii.eqb c "."%char then Ok (FmtState (fs_lit st) (fs_arg st) FPrecStart)
  else at_lenmod c st.

Definition at_width (c : Ascii.ascii) (st : fmt_state) : result fmt_state :=
  if Ascii.eqb c "*"%char then take_arg st FAfterWidth
  else match digit c with
       | Some d => Ok (FmtState (fs_lit st) (fs_arg st) (FWidth d))
       | None => at_prec c st
       end.

Definition at_flags (c : Ascii.ascii) (st : fmt_state) : result fmt_state :=
  if is_flag c then Ok (FmtState (fs_lit st) (fs_arg st) FFlags)
  else at_width c st.

(** [PY_SSIZE_T_MAX] and [INT_MAX], the bounds of a width and of a
    precision. *)
Definition ssize_max : Z := 2 ^ 63 - 1.
Definition int_max : Z := 2 ^ 31 - 1.

Definition fmt_step (st : fmt_state) (c : Ascii.ascii) : result fmt_state :=
  match fs_stage st with
  | FText =>
      if Ascii.eqb c "%"%char
      then Ok (FmtState (fs_lit st) (fs_arg st) FStart)
      else Ok (emit c st)
  | FStart =>
      if Ascii.eqb c "%"%char then Ok (emit c st)
      else if Ascii.eqb c "("%char then Raise TypeError
      else at_flags c st
  | FFlags => at_flags c st
  | FWidth acc =>
      match digit c with
      | Some d =>
          if (ssize_max - d) `div` 10 <? acc then Raise ValueError
          else Ok (FmtState (fs_lit st) (fs_arg st) (FWidth (acc * 10 + d)))
      | None => at_prec c st
      end
  | FAfterWidth => at_prec c st
  | FPrecStart =>
      if Ascii.eqb c "*"%char then take_arg st FAfterPrec
      else match digit c with
           | Some d => Ok (FmtState (fs_lit st) (fs_arg st) (FPrec d))
           | None => at_lenmod c st
           end
  | FPrec acc =>
      match digit c with
      | Some d =>
          if (int_max - d) `div` 10 <? acc then Raise ValueError
          else Ok (FmtState (fs_lit st) (fs_arg st) (FPrec (acc * 10 + d)))
      | None => at_lenmod c st
      end
  | FAfterPrec => at_lenmod c st
  | FConv => at_conv c st
  end.

Fixpoint fmt_scan (st : fmt_state) (s : string) : result fmt_state :=
  match s with
  | EmptyString => Ok st
  | String c s' => st' ← fmt_step st c; fmt_scan st' s'
  end.

(** After the stem come [_], [%s] and [.nc].  Outside a specifier the
    [%s] takes the argument, if it is still there.  Inside a specifier the
    [_] is read as its conversion character, which no conversion is. *)
Definition percent_pattern (stem : string) : result (string * string) :=
  st ← fmt_scan (FmtState EmptyString true FText) stem;
  match fs_stage st with
  | FText =>
      if fs_arg st then Ok (fs_lit st +:+ "_", ".nc") else Raise TypeError
  | _ => if fs_arg st then Raise ValueError else Raise TypeError
  end.

End Py.

(** ** Module-level tables *)

Definition countries : list (string * Z) :=
  [("malawi", 0); ("safrica", 1); ("tanzania", 2); ("zambia", 3)].

Definition crops : list (string * Z) :=
  [("cassava", 0); ("groundnut", 1); ("maize", 2); ("millet", 3);
   ("potato", 4); ("rice", 5); ("sorghum", 6); ("soybean", 7);
   ("sugarcane", 8); ("sweetpot", 9); ("wheat", 10)].

Definition models : list (string * Z) :=
  [("bcc-csm1-1", 0); ("bcc-csm1-1-m", 1); ("BNU-ESM", 2); ("CanESM2", 3);
   ("CNRM-CM5", 4); ("CSIRO-Mk3-6-0", 5); ("GFDL-CM3", 6);
   ("GFDL-ESM2G", 7); ("GFDL-ESM2M", 8); ("IPSL-CM5A-LR", 9);
   ("IPSL-CM5A-MR", 10); ("MIROC5", 11); ("MIROC-ESM", 12);
   ("MIROC-ESM-CHEM", 13); ("MPI-ESM-LR", 14); ("MPI-ESM-MR", 15);
   ("MRI-CGCM3", 16); ("NorESM1-M", 17)].

Definition rcps : list (string * Z) := [("rcp26", 0); ("rcp85", 2)].

Definition prod_lst : list string :=
  ["0.1"; "0.2"; "0.3"; "0.4"; "0.5"; "0.6"; "0.7"; "0.8"; "0.9"; "1"].

Definition irr_lst : list string :=
  ["0"; "0.1"; "0.2"; "0.3"; "0.4"; "0.5"; "0.6"; "0.7"; "0.8"; "0.9";
   "1"; "2"].

Definition column : list (string * string) := [
  ("V1", "Year");
  ("V2", "Latitude");
  ("V3", "Longitude");
  ("V4", "Planting date");
  ("V5", "Final crop stage (ISTG)");
  ("V6", "Mean root length density by volume");
  ("V7", "LAI (specifically RLAI (2))");
  ("V8", "Yield");
  ("V9", "Biomass");
  ("V10", "Empty (irrigated fraction; SLA)");
  ("V11", "Harvest index");
  ("V12", "Cumulative rain");
  ("V13", "Solar radiation");
  ("V14", "Total soil water");
  ("V15", "Transpiration");
  ("V16", "Evapotranspiration_1");
  ("V17", "Potential evapotranspiration (limited by soil transport, LAI and energy)");
  ("V18", "Soil water stress factor");
  ("V19", "Evapotranspiration_2");
  ("V20", "Runoff");
  ("V21", "Cumulative runoff");
  ("V22", "Potential (root-limited) uptake");
  ("V23", "Cumulative potential uptake");
  ("V24", "Drainage");
  ("V25", "Cumulative drainage");
  ("V26", "Potential (energy-limited) transpiration");
  ("V27", "Cumulative potential transpiration");
  ("V28", "Cumulative evaporation");
  ("V29", "Max LAI during growing season");
  ("V30", "Cumulative potential evaporation");
  ("V31", "Cumulative transpiration");
  ("V32", "Root length density by area");
  ("V33", "Root Length Density by Area / LAI");
  ("V34", "Rainfall");
  ("V35", "Change in soil moisture");
  ("V36", "Absorbed radiation");
  ("V37", "Duration");
  ("V38", "Mean vapour pressure deficit");
  ("V39", "Tot net radiation");
  ("V40", "Total percentage of pods setting (TOTPP)");
  ("V41", "Total percentage of pods setting considering temperature only (TOTPP_HIT)");
  ("V42", "Total percentage of pods setting considering water stress only (TOTPP_WAT)");
  ("V43", "Mean temperature during the crop season (planting to harvest).");
  ("V44", "Factor DHDT is reduced by due to heat stress when HTS=1 or 2 (HT_FAC)");
  ("V45", "TOTWHARVDEP");
  ("V46", "STORED_WATER");
  ("V47", "Panicle initiation date (DOY - Sorghum only)");
  ("V48", "Flowering date (DOY - Sorghum only)");
  ("V49", "Total supplementary irrigation added to VOLSW (1) if using SUP irrigation")
]%string.

Definition var_nm : list (string * string) := [
  ("V1", "year");
  ("V2", "latitude");
  ("V3", "longitude");
  ("V4", "plant_date");
  ("V5", "istg_final");
  ("V6", "rlv_mean");
  ("V7", "rlai_2");
  ("V8", "yield");
  ("V9", "biomass");
  ("V10", "sla");
  ("V11", "harv_index");
  ("V12", "tot_rain");
  ("V13", "srad_final");
  ("V14", "soil_wat");
  ("V15", "trans");
  ("V16", "evtrans1");
  ("V17", "pot_evtrans");
  ("V18", "soil_wat_fac");
  ("V19", "evtrans2");
  ("V20", "runoff");
  ("V21", "tot_runoff");
  ("V22", "pot_uptake");
  ("V23", "tot_pot_uptake");
  ("V24", "drainage");
  ("V25", "tot_drainage");
  ("V26", "pot_trans");
  ("V27", "tot_pot_trans");
  ("V28", "tot_evap");
  ("V29", "lai_max");
  ("V30", "tot_pot_ev");
  ("V31", "tot_trans");
  ("V32", "rla");
  ("V33", "rla_over_lai");
  ("V34", "rain_final");
  ("V35", "d_soil_moist");
  ("V36", "t_rad_abs");
  ("V37", "dur");
  ("V38", "mean_vap_pres_def");
  ("V39", "Tot_net_rad");
  ("V40", "tot_per_pod");
  ("V41", "tot_per_pod_hit");
  ("V42", "tot_per_pod_wat");
  ("V43", "mean_temp");
  ("V44", "dhdt_fac");
  ("V45", "totwharvdep");
  ("V46", "stor_wat");
  ("V47", "pan_init_date");
  ("V48", "flowr_date");
  ("V49", "tot_irr_sup")
]%string.

Definition var_units : list (string * string) := [
  ("V1", "year");
  ("V2", "degrees_north");
  ("V3", "degrees_east");
  ("V4", "days");
  ("V5", "1");
  ("V6", "cm/cm^3");
  ("V7", "m^2/m^2");
  ("V8", "kg/ha");
  ("V9", "kg/ha");
  ("V10", "1");
  ("V11", "1");
  ("V12", "cm");
  ("V13", "MJ/m^2");
  ("V14", "cm");
  ("V15", "cm");
  ("V16", "cm");
  ("V17", "cm");
  ("V18", "1");
  ("V19", "cm");
  ("V20", "cm");
  ("V21", "cm");
  ("V22", "cm");
  ("V23", "cm");
  ("V24", "cm");
  ("V25", "cm");
  ("V26", "cm");
  ("V27", "cm");
  ("V28", "cm");
  ("V29", "m^2/m^2");
  ("V30", "cm");
  ("V31", "cm");
  ("V32", "cm/cm^2");
  ("V33", "cm/cm^2");
  ("V34", "cm");
  ("V35", "cm");
  ("V36", "MJ/m^2");
  ("V37", "days");
  ("V38", "kPa");
  ("V39", "MJ/m^2");
  ("V40", "%");
  ("V41", "%");
  ("V42", "%");
  ("V43", "celsius");
  ("V44", "1");
  ("V45", "cm");
  ("V46", "cm");
  ("V47", "day");
  ("V48", "day");
  ("V49", "cm")
]%string.

(** ** Data model *)

(** A parsed raw table ([pandas.DataFrame] with a default [RangeIndex]):
    the labelled columns in file order, all of one length. *)
Definition DataFrame : Type := list (string * list Q).

(** [df[name]]; [None] stands for KeyError. *)
Definition df_col (df : DataFrame) (name : string) : option (list Q) :=
  Py.dict_get df name.

(** [numpy.ma] array over the (latitude, longitude) plane; the six
    length-one axes of the source array carry no index information. *)
Record masked_array : Type := MaskedArray {
  ma_data : list (list Q);
  ma_mask : list (list bool);
  ma_fill_value : Q
}.

Record Cube : Type := MkCube {
  cube_data : masked_array;
  cube_time : Q;
  cube_latitude : list Q;
  cube_longitude : list Q;
  cube_prod_lev : Q;
  cube_irr_lev : Q;
  cube_rcp : Q;
  cube_model : Q;
  cube_crop : Q;
  cube_long_name : string;
  cube_units : string;
  cube_name : string
}.

(** The scenario names and codes, [valnames] and [dimvals] of the source
    (both four-element lists: country, crop, model, rcp). *)
Record valnames : Type := Valnames {
  vn_country : string; vn_crop : string; vn_model : string; vn_rcp : string
}.

Record dimvals : Type := Dimvals {
  dv_country : Z; dv_crop : Z; dv_model : Z; dv_rcp : Z
}.

(** The read-only input tree: the year directories below [tree_root], each
    with its regular files; a file that pandas cannot parse has no table. *)
Record directory : Type := Directory {
  dir_name : string;
  dir_files : list (string * option DataFrame)
}.

Record input_tree : Type := InputTree {
  tree_root : string;
  tree_top_files : list string;
  tree_dirs : list directory
}.

(** Files the program writes: array-file containers and directories. *)
Inductive file : Type :=
  | Dir
  | NcFile (cubes : list Cube).

Record world : Type := World {
  files : gmap string file;
  stdout : list string
}.

(** ** The monad of the program: state over [world], with exceptions *)

Definition M (A : Type) : Type := world → world * result A.

#[global] Instance M_ret : MRet M := fun A a w => (w, Ok a).
#[global] Instance M_bind : MBind M := fun A B k m w =>
  match m w with
  | (w', Ok a) => k a w'
  | (w', Raise e) => (w', Raise e)
  end.

Definition lift {A} (r : result A) : M A := fun w => (w, r).
Definition raise {A} (e : exn) : M A := fun w => (w, Raise e).
Definition print (s : string) : M unit :=
  fun w => (World (files w) (stdout w ++ [s]), Ok tt).
Definition get_files : M (gmap string file) := fun w => (w, Ok (files w)).
Definition put_file (p : string) (f : file) : M unit :=
  fun w => (World (<[p := f]> (files w)) (stdout w), Ok tt).
Definition path_exists (p : string) : M bool :=
  fun w => (w, Ok (Fs.exists_ (dom (files w)) p)).

(** ** Reading the input tree *)

(** [os.path.join(a, b)] for a relative [b]. *)
Definition os_path_join (a b : string) : string :=
  match Py.neg_index (String.list_ascii_of_string a) 1 with
  | None => b
  | Some c => if Ascii.eqb c "/"%char then a +:+ b else a +:+ "/" +:+ b
  end.

Definition dir_path (tree : input_tree) (d : directory) : string :=
  os_path_join (tree_root tree) (dir_name d).

Fixpoint find_file (dpath : string) (fl : list (string * option DataFrame))
    (path : string) : option (option DataFrame) :=
  match fl with
  | [] => None
  | (nm, c) :: fl' =>
      if String.eqb (os_path_join dpath nm) path then Some c
      else find_file dpath fl' path
  end.

Fixpoint find_in_dirs (tree : input_tree) (ds : list directory)
    (path : string) : option (option DataFrame) :=
  match ds with
  | [] => None
  | d :: ds' =>
      match find_file (dir_path tree d) (dir_files d) path with
      | Some c => Some c
      | None => find_in_dirs tree ds' path
      end
  end.

(** [pd.read_csv(path, sep=' ')] under the bare [except]: a missing file
    and an unparseable file both end in [FileError]. *)
Definition read_csv (tree : input_tree) (path : string) : result DataFrame :=
  match find_in_dirs tree (tree_dirs tree) path with
  | Some (Some df) => Ok df
  | _ => Raise FileError
  end.

(** [os.walk(locdir)]: the top directory, then each year directory, as
    (dirpath, number of regular files). *)
Definition os_walk (tree : input_tree) (locdir : string)
  : list (string * nat) :=
  if String.eqb locdir (tree_root tree) then
    (locdir, length (tree_top_files tree))
      :: map (fun d => (dir_path tree d, length (dir_files d))) (tree_dirs tree)
  else [].

Definition getyrs (tree : input_tree) (locdir : string) : list string :=
  foldl (fun yrs fol =>
           if decide (120 ≤ fol.2)%nat then
             match Py.neg_index (Py.split "/"%char fol.1) 1 with
             | Some yr => if String.eqb yr "" then yrs else yrs ++ [yr]
             | None => yrs
             end
           else yrs)
        [] (os_walk tree locdir).

(** ** readascii *)

Definition newline : string := String (ascii_of_nat 10) EmptyString.

(** The reserved fill value [-99]. *)
Definition sentinel : Q := inject_Z (-99).

(** [Series.max()] and [Series.min()]; [None] stands for the NaN of an
    empty column. *)
Fixpoint col_max (l : list Q) : option Q :=
  match l with
  | [] => None
  | x :: l' =>
      match col_max l' with
      | None => Some x
      | Some m => Some (if Qle_bool m x then x else m)
      end
  end.

Fixpoint col_min (l : list Q) : option Q :=
  match l with
  | [] => None
  | x :: l' =>
      match col_min l' with
      | None => Some x
      | Some m => Some (if Qle_bool x m then x else m)
      end
  end.

(** [np.linspace(start, stop, num)]: [arange(num) * step + start] with the
    last point set to [stop]. *)
Definition linspace (start stop : Q) (num : nat) : list Q :=
  match num with
  | O => []
  | S O => [start]
  | S m =>
      let step := ((stop - start) / inject_Z (Z.of_nat m))%Q in
      map (fun i => (inject_Z (Z.of_nat i) * step + start)%Q) (seq 0 m)
        ++ [stop]
  end.

(** [np.where(points == x)[0]]: the indices of the points equal to [x]. *)
Fixpoint np_where_from (i : nat) (pts : list Q) (x : Q) : list nat :=
  match pts with
  | [] => []
  | p :: ps =>
      if Qeq_bool p x then i :: np_where_from (S i) ps x
      else np_where_from (S i) ps x
  end.

Definition np_where (pts : list Q) (x : Q) : list nat := np_where_from 0 pts x.

(** [all(x == df['V1'][1] for x in df['V1'])]: label [1] is the second
    row; it is looked up once per element, so only on a non-empty column. *)
Definition all_same_year (v1 : list Q) : result bool :=
  match v1 with
  | [] => Ok true
  | _ :: _ =>
      y ← of_option KeyError (v1 !! 1%nat);
      Ok (forallb (fun x => Qeq_bool x y) v1)
  end.

(** [float(filenm.split('_')[-k])] *)
Definition filename_level (filenm : string) (k : nat) : result Q :=
  part ← of_option IndexError (Py.neg_index (Py.split "_"%char filenm) k);
  of_option ValueError (Py.float part).

(** The loop over [df.iterrows()] for one column: each row writes its
    value at the first mesh index equal to its latitude and longitude. *)
Fixpoint fill_rows (lat_pts lon_pts : list Q) (rows : list (Q * Q * Q))
    (data : list (list Q)) : result (list (list Q)) :=
  match rows with
  | [] => Ok data
  | (lat, lon, v) :: rows' =>
      a ← of_option IndexError (np_where lat_pts lat !! 0%nat);
      b ← of_option IndexError (np_where lon_pts lon !! 0%nat);
      fill_rows lat_pts lon_pts rows' (alter (<[b := v]>) a data)
  end.

(** [np.ma.masked_equal(data, -99.)] followed by [fill_value = -99.0] *)
Definition masked_equal (data : list (list Q)) (value : Q) : masked_array :=
  {| ma_data := data;
     ma_mask := map (map (fun x => Qeq_bool x value)) data;
     ma_fill_value := value |}.

(** The coordinates shared by every layer of one table ([cube_templ]
    without its data). *)
Record template : Type := Template {
  t_grid : list (list Q);
  t_time : Q;
  t_latitude : list Q;
  t_longitude : list Q;
  t_prod_lev : Q;
  t_irr_lev : Q;
  t_rcp : Q;
  t_model : Q;
  t_crop : Q
}.

(** The body of [for col in df]. *)
Fixpoint layers (templ : template) (v2 v3 : list Q) (cols : DataFrame)
  : result (list Cube) :=
  match cols with
  | [] => Ok []
  | (col, vals) :: cols' =>
      num ← of_option ValueError (Py.int (Py.tail col));
      if 3 <? num then
        data ← fill_rows (t_latitude templ) (t_longitude templ)
                 (zip (zip v2 v3) vals) (t_grid templ);
        (* long_name = column[col]; units = var_units[col];
           rename(var_nm[col]): none of the names in var_nm is a CF standard
           name, so rename stores it as the long name, replacing the one
           set just before *)
        _ ← of_option KeyError (Py.dict_get column col);
        units ← of_option KeyError (Py.dict_get var_units col);
        name ← of_option KeyError (Py.dict_get var_nm col);
        rest ← layers templ v2 v3 cols';
        Ok ({| cube_data := masked_equal data sentinel;
               cube_time := t_time templ;
               cube_latitude := t_latitude templ;
               cube_longitude := t_longitude templ;
               cube_prod_lev := t_prod_lev templ;
               cube_irr_lev := t_irr_lev templ;
               cube_rcp := t_rcp templ;
               cube_model := t_model templ;
               cube_crop := t_crop templ;
               cube_long_name := name;
               cube_units := units;
               cube_name := name |} :: rest)
      else layers templ v2 v3 cols'
  end.

Definition readascii (tree : input_tree) (path : string) (dv : dimvals)
  : M (list Cube) :=
  df ← lift (read_csv tree path);
  let filenm := (Py.os_path_split path).2 in
  v2 ← lift (of_option KeyError (df_col df "V2"));
  let n := col_max v2 in
  let s := col_min v2 in
  v3 ← lift (of_option KeyError (df_col df "V3"));
  let e := col_max v3 in
  let w := col_min v3 in
  v1 ← lift (of_option KeyError (df_col df "V1"));
  same ← lift (all_same_year v1);
  time ← (if same : bool then
            y ← lift (of_option KeyError (v1 !! 1%nat));
            mret (Some y)
          else
            _ ← print ("Error in data file " +:+ filenm +:+ "." +:+ newline);
            _ ← print "Multiple years read within same file";
            mret None);
  prodlev ← lift (filename_level filenm 3);
  irr_lev ← lift (filename_level filenm 2);
  let crop_dim := inject_Z (dv_crop dv) in
  let model_dim := inject_Z (dv_model dv) in
  let rcp_dim := inject_Z (dv_rcp dv) in
  (* NaN bounds of an empty table cannot be converted by int() *)
  n ← lift (of_option ValueError n);
  s ← lift (of_option ValueError s);
  e ← lift (of_option ValueError e);
  w ← lift (of_option ValueError w);
  let nlat := Z.to_nat (Py.trunc ((n - s) * 2 + 1)%Q) in
  let nlon := Z.to_nat (Py.trunc ((e - w) * 2 + 1)%Q) in
  let grid := replicate nlat (replicate nlon sentinel) in
  let latitude := linspace s n (Z.to_nat (Py.trunc ((n - s) * 2)%Q + 1)) in
  let longitude := linspace w e (Z.to_nat (Py.trunc ((e - w) * 2)%Q + 1)) in
  (* cube_templ: [time] is read here; the Cube constructor rejects
     coordinates whose length differs from the data dimension *)
  time ← lift (of_option UnboundLocalError time);
  if negb ((length latitude =? nlat)%nat && (length longitude =? nlon)%nat)
  then raise ValueError
  else
    let templ :=
      {| t_grid := grid; t_time := time;
         t_latitude := latitude; t_longitude := longitude;
         t_prod_lev := prodlev; t_irr_lev := irr_lev;
         t_rcp := rcp_dim; t_model := model_dim; t_crop := crop_dim |} in
    lift (layers templ v2 v3 df).

(** ** outcube and fullyr *)

(** [for x in l: body], threading the loop-carried variables [s]. *)
Fixpoint for_ {A S} (l : list A) (body : A → S → M S) (s : S) : M S :=
  match l with
  | [] => mret s
  | x :: l' => s' ← body x s; for_ l' body s'
  end.

(** [CubeList.concatenate()] is computed by iris from the cube list; the
    stored product is represented by the list it is computed from. *)
Definition concatenate (cubelst : list Cube) : list Cube := cubelst.

(** The directory a new file is created in is there: the current
    directory for a bare file name, an existing directory otherwise. *)
Definition dir_ready (fs : gmap string file) (p : string) : bool :=
  let dir_name := (Py.os_path_split p).1 in
  if String.eqb dir_name "" then true
  else match fs !! dir_name with
       | Some Dir => true
       | _ => false
       end.

(** [iris.fileformats.netcdf.save(cube, outfile, zlib=True)]: the
    container is created at [outfile], replacing a container that is
    there; iris raises IOError when the file cannot be created. *)
Definition netcdf_save (cube : list Cube) (outfile : string) : M unit :=
  fs ← get_files;
  match fs !! outfile with
  | Some Dir => raise OSError
  | _ => if dir_ready fs outfile then put_file outfile (NcFile cube)
         else raise OSError
  end.

Definition outcube (cube : list Cube) (fname : string) : M unit :=
  ex ← path_exists fname;
  outfile ← (if ex : bool then
               fs ← get_files;
               (* nextPath(fname[:-3]+'_%s.nc'): the pattern is read by
                  the % operator at the first test of the first loop *)
               pp ← lift (Py.percent_pattern (Py.drop_last 3 fname));
               lift (of_option Diverges
                       (nextPath (dom fs) (Pattern pp.1 pp.2)))
             else mret fname);
  netcdf_save cube outfile.

(** The argument list [[valnames, ascdir, dimvals, outfil]]. *)
Record args : Type := Args {
  a_valnames : valnames;
  a_ascdir : string;
  a_dimvals : dimvals;
  a_outfil : string
}.

Definition raw_filename (vn : valnames) (yr prod irr : string) : string :=
  let filenm :=
    vn_crop vn +:+ "_" +:+ vn_country vn +:+ "_amma_" +:+ vn_model vn +:+ "_" in
  filenm +:+ vn_rcp vn +:+ "_Fut_" +:+ yr +:+ "_" +:+ prod +:+ "_" +:+ irr
         +:+ "_1.out".

Definition fullyr (tree : input_tree) (data : string * args) : M string :=
  let valnames := a_valnames data.2 in
  let ascdir := a_ascdir data.2 in
  let dimvals := a_dimvals data.2 in
  let outfil := a_outfil data.2 in
  let yr := data.1 in
  let tot := (length prod_lst * length irr_lst)%nat in
  st ← for_ prod_lst (fun prod st =>
          for_ irr_lst (fun irr '(n, cubelst) =>
            let n := (n + 1)%nat in
            let filenm := raw_filename valnames yr prod irr in
            let path := ascdir +:+ yr +:+ "/" +:+ filenm in
            cubes ← readascii tree path dimvals;
            _ ← print ("cube " +:+ pretty n +:+ " of " +:+ pretty tot
                         +:+ " appended for year " +:+ yr);
            mret (n, cubelst ++ cubes)) st)
        (0%nat, []);
  let outnm := outfil +:+ "_" +:+ yr +:+ ".nc" in
  _ ← outcube (concatenate st.2) outnm;
  mret outnm.

(** ** catdata *)

(** The two external operations, as functions of the contents of their
    input containers; [None] is a failed call.  The concatenation is also
    given what lies at its output path before the call: the program passes
    it no overwrite option, so whether it replaces an existing output or
    fails on it is the operation's own choice. *)
Record Nco : Type := MkNco {
  nco_mk_rec_dmn : list Cube → option (list Cube);
  nco_concat : option file → list (list Cube) → option (list Cube)
}.

Definition nc_contents (fs : gmap string file) (p : string)
  : option (list Cube) :=
  match fs !! p with
  | Some (NcFile c) => Some c
  | _ => None
  end.

(** [nco.ncks(input=i, output=o, options=['-O','-h','--mk_rec_dmn time'])];
    [-O] overwrites the output. *)
Definition ncks (nco : Nco) (input output : string) : M unit :=
  fs ← get_files;
  c ← lift (of_option NCOException (nc_contents fs input));
  c' ← lift (of_option NCOException (nco_mk_rec_dmn nco c));
  put_file output (NcFile c').

(** [nco.ncrcat(input=l, output=o)] *)
Definition ncrcat (nco : Nco) (input : list string) (output : string)
  : M unit :=
  fs ← get_files;
  cs ← lift (of_option NCOException (mapM (nc_contents fs) input));
  c' ← lift (of_option NCOException (nco_concat nco (fs !! output) cs));
  put_file output (NcFile c').

Fixpoint ancestors (fuel : nat) (p : string) : list string :=
  match fuel with
  | O => []
  | S fuel' =>
      if String.eqb p "" then []
      else p :: ancestors fuel' (Py.os_path_split p).1
  end.

(** [os.makedirs(path)] on a path that does not exist yet. *)
Definition os_makedirs (path : string) : M unit :=
  if String.eqb path "" then raise FileNotFoundError
  else fun w =>
    (World (foldr (fun p fs => if Fs.exists_ (dom fs) p then fs
                               else <[p := Dir]> fs)
                  (files w) (ancestors (String.length path) path))
           (stdout w),
     Ok tt).

Definition os_remove (p : string) : M unit :=
  fun w =>
    match files w !! p with
    | None => (w, Raise FileNotFoundError)
    | Some Dir => (w, Raise IsADirectoryError)
    | Some (NcFile _) => (World (delete p (files w)) (stdout w), Ok tt)
    end.

Definition catdata (nco : Nco) (catlist : list string) (outfil : string)
  : M unit :=
  c0 ← lift (of_option IndexError (catlist !! 0%nat));
  let recdim := Py.drop_last 3 c0 +:+ "_recdim.nc" in
  _ ← ncks nco c0 recdim;
  (* catlist.insert(1, recdim) *)
  let catlist := take 1 catlist ++ recdim :: drop 1 catlist in
  let newfile := outfil +:+ ".nc" in
  let path := (Py.os_path_split newfile).1 in
  ex ← path_exists path;
  _ ← (if ex : bool then mret tt else os_makedirs path);
  _ ← ncrcat nco (drop 1 catlist) newfile;
  for_ catlist (fun file _ => os_remove file) tt.

(** ** The schedulers *)

Definition str_le (a b : string) : Prop := Py.str_le a b = true.

#[global] Instance str_le_dec a b : Decision (str_le a b).
Proof. unfold str_le. apply _. Defined.

(** [list.sort()] on a list of [str]. *)
Definition py_sort (l : list string) : list string := merge_sort str_le l.

Record indata : Type := Indata {
  in_yrs : list string;
  in_ascdir : string;
  in_valnames : valnames;
  in_procs : Z;
  in_dimvals : dimvals;
  in_outfil : string
}.

(** [print(label, int(end-start))], [elapsed] being the whole seconds
    between the two readings of the clock. *)
Definition print_time (label : string) (elapsed : Z) : M unit :=
  print (label +:+ " " +:+ pretty elapsed).

Definition singleprocess_rcp (nco : Nco) (tree : input_tree) (ind : indata)
    (elapsed : Z) : M unit :=
  let args := Args (in_valnames ind) (in_ascdir ind) (in_dimvals ind)
                   (in_outfil ind) in
  let itterable := map (fun yr => (yr, args)) (in_yrs ind) in
  yearlist ← for_ itterable
                (fun data yearlist =>
                   p ← fullyr tree data; mret (yearlist ++ [p])) [];
  let yearlist := py_sort yearlist in
  _ ← catdata nco yearlist (in_outfil ind);
  print_time "time to combine ascii to a set of nc files:" elapsed.

(** [ary[st:st+size]] for each section size in turn. *)
Fixpoint sections {A} (ary : list A) (st : nat) (sizes : list nat)
  : list (list A) :=
  match sizes with
  | [] => []
  | sz :: sizes' => take sz (drop st ary) :: sections ary (st + sz) sizes'
  end.

(** [np.array_split(ary, nsections)] for a scalar section count, which
    [int()] has truncated.  The rows [[yr, args]] are nested lists of
    unequal depth; NumPy keeps such rows as objects, so each piece holds
    the rows as they were. *)
Definition array_split {A} (ary : list A) (nsections : Z)
  : result (list (list A)) :=
  if nsections <=? 0 then Raise ValueError
  else
    let ntotal := Z.of_nat (length ary) in
    let neach_section := ntotal `div` nsections in
    let extras := ntotal `mod` nsections in
    let section_sizes :=
      replicate (Z.to_nat extras) (Z.to_nat (neach_section + 1))
      ++ replicate (Z.to_nat (nsections - extras)) (Z.to_nat neach_section) in
    Ok (sections ary 0 section_sizes).

(** [pool.map(f, chunk)]: every task of the chunk runs to its end in one
    of the workers, and the results come back in the order of the chunk.
    The tasks of the program write different paths (one year each), so
    their effects on the files are taken in the order of the chunk, and
    so are the lines they print.  When tasks have failed, the call raises,
    once all have finished, the exception of the failed task that
    finished first: [first_failed] picks it among the exceptions raised,
    given in the order of the chunk. *)
Fixpoint pool_run {A B} (f : A → M B) (chunk : list A) (w : world)
  : world * list (result B) :=
  match chunk with
  | [] => (w, [])
  | x :: chunk' =>
      let '(w1, r) := f x w in
      let '(w2, rs) := pool_run f chunk' w1 in
      (w2, r :: rs)
  end.

Fixpoint returned {B} (rs : list (result B)) : list B :=
  match rs with
  | [] => []
  | Ok b :: rs' => b :: returned rs'
  | Raise _ :: rs' => returned rs'
  end.

Fixpoint failures {B} (rs : list (result B)) : list exn :=
  match rs with
  | [] => []
  | Ok _ :: rs' => failures rs'
  | Raise e :: rs' => e :: failures rs'
  end.

Definition gather {B} (first_failed : list exn → nat) (rs : list (result B))
  : result (list B) :=
  match failures rs with
  | [] => Ok (returned rs)
  | e :: es =>
      Raise (nth (first_failed (e :: es) `mod` length (e :: es))%nat
                 (e :: es) e)
  end.

Definition pool_map {A B} (first_failed : list exn → nat) (f : A → M B)
    (chunk : list A) : M (list B) :=
  fun w => let '(w', rs) := pool_run f chunk w in (w', gather first_failed rs).

Definition multiprocess_rcp (nco : Nco) (tree : input_tree) (ind : indata)
    (first_failed : list exn → nat) (elapsed : Z) : M unit :=
  let yrs := in_yrs ind in
  let locproc := Z.min (Z.of_nat (length yrs)) (in_procs ind) in
  let args := Args (in_valnames ind) (in_ascdir ind) (in_dimvals ind)
                   (in_outfil ind) in
  let itterable := map (fun yr => (yr, args)) yrs in
  if locproc =? 0 then raise ZeroDivisionError
  else
    list_of_chunks ←
      lift (array_split itterable
              (Py.trunc (inject_Z (Z.of_nat (length itterable))
                         / inject_Z locproc)%Q));
    yearlist ← for_ list_of_chunks
                  (fun chunk yearlist =>
                     ps ← pool_map first_failed (fullyr tree) chunk;
                     mret (yearlist ++ ps)) [];
    let yearlist := py_sort yearlist in
    _ ← catdata nco yearlist (in_outfil ind);
    print_time "time to combine ascii to a single nc:" elapsed.

(** [main], from the values returned by [readargs]. *)
Definition main (nco : Nco) (tree : input_tree)
    (ascdir : string) (vn : valnames) (nbr_processes : Z) (outfil : string)
    (first_failed : list exn → nat) (elapsed : Z) : M unit :=
  let yrs := getyrs tree ascdir in
  dv ← lift (of_option ArgumentsError
               (c ← Py.dict_get countries (vn_country vn);
                k ← Py.dict_get crops (vn_crop vn);
                m ← Py.dict_get models (vn_model vn);
                r ← Py.dict_get rcps (vn_rcp vn);
                Some (Dimvals c k m r)));
  let ind := Indata yrs ascdir vn nbr_processes dv outfil in
  if 1 <? nbr_processes then multiprocess_rcp nco tree ind first_failed elapsed
  else singleprocess_rcp nco tree ind elapsed.

(** ** Vocabulary of the statements *)

(** [int(col[1:]) > 3]: the test that makes a column a variable layer. *)
Definition is_variable (col : string) : bool :=
  match Py.int (Py.tail col) with
  | Some num => 3 <? num
  | None => false
  end.

(** The cell [(a, b)] of a two-dimensional array. *)
Definition cell {A} (data : list (list A)) (a b : nat) : option A :=
  row ← data !! a; row !! b.

(** The mesh cell a row is written to: the first index of its latitude and
    the first index of its longitude, [(a[0][0], b[0][0])]. *)
Definition cell_of (lat_pts lon_pts : list Q) (lat lon : Q)
  : option (nat * nat) :=
  a ← np_where lat_pts lat !! 0%nat;
  b ← np_where lon_pts lon !! 0%nat;
  Some (a, b).

(** A two-dimensional array of [nlat] rows of [nlon] cells each. *)
Definition rect {A} (nlat nlon : nat) (data : list (list A)) : Prop :=
  length data = nlat ∧ Forall (λ row, length row = nlon) data.

(** What [readascii] records for the column [cv] in the layer [cube]. *)
Definition layer_of (templ : template) (v2 v3 : list Q)
    (cv : string * list Q) (cube : Cube) : Prop :=
  ∃ data,
    fill_rows (t_latitude templ) (t_longitude templ)
      (zip (zip v2 v3) cv.2) (t_grid templ) = Ok data
    ∧ cube_data cube = masked_equal data sentinel
    ∧ cube_time cube = t_time templ
    ∧ cube_latitude cube = t_latitude templ
    ∧ cube_longitude cube = t_longitude templ
    ∧ is_Some (Py.dict_get column cv.1)
    ∧ Py.dict_get var_nm cv.1 = Some (cube_long_name cube)
    ∧ Py.dict_get var_units cv.1 = Some (cube_units cube)
    ∧ Py.dict_get var_nm cv.1 = Some (cube_name cube).

(** The template [readascii] builds from the bounds [n], [s], [e], [w] of
    the table: the grid filled with the reserved value and the two meshes. *)
Definition mesh_template (n s e w time prodlev irr_lev : Q) (dv : dimvals)
  : template :=
  {| t_grid :=
       replicate (Z.to_nat (Py.trunc ((n - s) * 2 + 1)%Q))
         (replicate (Z.to_nat (Py.trunc ((e - w) * 2 + 1)%Q)) sentinel);
     t_time := time;
     t_latitude := linspace s n (Z.to_nat (Py.trunc ((n - s) * 2)%Q + 1));
     t_longitude := linspace w e (Z.to_nat (Py.trunc ((e - w) * 2)%Q + 1));
     t_prod_lev := prodlev;
     t_irr_lev := irr_lev;
     t_rcp := inject_Z (dv_rcp dv);
     t_model := inject_Z (dv_model dv);
     t_crop := inject_Z (dv_crop dv) |}.



(** A row of the column [cv] whose value equals the reserved value, and
    which no later row of the same point follows, is stored as a masked
    cell holding the reserved value. *)
Definition sentinel_rows_masked (v2 v3 : list Q) (cv : string * list Q)
    (cube : Cube) : Prop :=
  ∀ i lat lon v,
    zip (zip v2 v3) cv.2 !! i = Some (lat, lon, v) →
    (v == sentinel)%Q →
    (∀ j lat' lon', (i < j)%nat → (j < length cv.2)%nat →
       zip v2 v3 !! j = Some (lat', lon') →
       ¬ ((lat' == lat)%Q ∧ (lon' == lon)%Q)) →
    ∃ a b x,
      cell_of (cube_latitude cube) (cube_longitude cube) lat lon = Some (a, b)
      ∧ cell (ma_data (cube_data cube)) a b = Some x ∧ (x == sentinel)%Q
      ∧ cell (ma_mask (cube_data cube)) a b = Some true
      ∧ ma_fill_value (cube_data cube) = sentinel.

(** The path [fullyr] returns for the year [yr]:
    ["{}_{}.nc".format(outfil, yr)]. *)
Definition outnm (outfil yr : string) : string :=
  outfil +:+ "_" +:+ yr +:+ ".nc".

(** A name without the character [%]. *)
Fixpoint no_percent (s : string) : bool :=
  match s with
  | EmptyString => true
  | String c s' => negb (Ascii.eqb c "%"%char) && no_percent s'
  end.

(** A name without the character [/]. *)
Fixpoint no_slash (s : string) : bool :=
  match s with
  | EmptyString => true
  | String c s' => negb (Ascii.eqb c "/"%char) && no_slash s'
  end.

(** A year name written with decimal digits only, and its number. *)
Fixpoint all_digits (s : string) : bool :=
  match s with
  | EmptyString => true
  | String a s' => bool_decide (is_Some (Py.digit a)) && all_digits s'
  end.

Definition year_number (yr : string) : Z := default 0 (Py.digits_acc 0 yr).

(** The world [w] with the file [f] at the path [p]. *)
Definition with_file (p : string) (f : file) (w : world) : world :=
  World (<[p := f]> (files w)) (stdout w).

(** A computation that only prints: it leaves the files alone, and what
    it prints and returns does not depend on the world it starts in. *)
Definition prints_only {A} (m : M A) : Prop :=
  ∃ msgs r, ∀ w, m w = (World (files w) (stdout w ++ msgs), r).

(** A computation that leaves the path [q] as it is, whatever it returns. *)
Definition keeps {A} (q : string) (m : M A) : Prop :=
  ∀ w, files (m w).1 !! q = files w !! q.

(** The path of the raw table of one year and one pair of levels. *)
Definition table_path (ascdir : string) (vn : valnames) (yr prod irr : string)
  : string :=
  ascdir +:+ yr +:+ "/" +:+ raw_filename vn yr prod irr.

(** The scenario codes [main] looks up. *)
Definition lookup_dimvals (vn : valnames) : option dimvals :=
  c ← Py.dict_get countries (vn_country vn);
  k ← Py.dict_get crops (vn_crop vn);
  m ← Py.dict_get models (vn_model vn);
  r ← Py.dict_get rcps (vn_rcp vn);
  Some (Dimvals c k m r).

(** Every raw table of the years [yrs] is either assembled by [readascii]
    or cannot be read at all. *)
Definition assembled_or_unreadable (tree : input_tree) (ascdir : string)
    (vn : valnames) (dv : dimvals) (yrs : list string) : bool :=
  forallb (fun yr =>
    forallb (fun prod =>
      forallb (fun irr =>
        match (readascii tree (table_path ascdir vn yr prod irr) dv
                 (World ∅ [])).2 with
        | Ok _ | Raise FileError => true
        | Raise _ => false
        end) irr_lst) prod_lst) yrs.

(** The body of the two loops of [fullyr] for one pair of levels, and the
    two loops themselves. *)
Definition table_step (tree : input_tree) (yr : string) (a : args)
    (prod irr : string) (st : nat * list Cube) : M (nat * list Cube) :=
  let '(n, cubelst) := st in
  let n := (n + 1)%nat in
  cubes ← readascii tree
             (table_path (a_ascdir a) (a_valnames a) yr prod irr)
             (a_dimvals a);
  _ ← print ("cube " +:+ pretty n +:+ " of "
               +:+ pretty (length prod_lst * length irr_lst)%nat
               +:+ " appended for year " +:+ yr);
  mret (n, cubelst ++ cubes).

Definition year_tables (tree : input_tree) (yr : string) (a : args)
  : M (nat * list Cube) :=
  for_ prod_lst
       (fun prod st => for_ irr_lst (table_step tree yr a prod) st)
       (0%nat, []).

(** The loop of the schedulers over the years, without the merge. *)
Definition collect_years (tree : input_tree) (ind : indata) : M (list string) :=
  for_ (map (fun yr => (yr, Args (in_valnames ind) (in_ascdir ind)
                                 (in_dimvals ind) (in_outfil ind)))
            (in_yrs ind))
       (fun data yearlist => p ← fullyr tree data; mret (yearlist ++ [p])) [].

(** Every raw table of the years [yrs] is assembled by [readascii]. *)
Definition all_assembled (tree : input_tree) (ascdir : string)
    (vn : valnames) (dv : dimvals) (yrs : list string) : bool :=
  forallb (fun yr =>
    forallb (fun prod =>
      forallb (fun irr =>
        is_ok (readascii tree (table_path ascdir vn yr prod irr) dv
                 (World ∅ [])).2) irr_lst) prod_lst) yrs.

(** Every raw table of the year of the task [x] is assembled by
    [readascii]. *)
Definition year_assembled (tree : input_tree) (x : string * args) : Prop :=
  ∀ prod irr, prod ∈ prod_lst → irr ∈ irr_lst →
    is_ok (readascii tree
             (table_path (a_ascdir x.2) (a_valnames x.2) x.1 prod irr)
             (a_dimvals x.2) (World ∅ [])).2 = true.

(** The exception [e] is raised by [fullyr] on one of the years [yrs]. *)
Definition year_raises (tree : input_tree) (a : args) (yrs : list string)
    (e : exn) : Prop :=
  ∃ yr w, yr ∈ yrs ∧ (fullyr tree (yr, a) w).2 = Raise e.

(** Each task [x] of [l], run by [f] in a world where [I] holds, ends in
    a world where [I] holds: it returns [h x] when [Q x] holds, and
    otherwise raises an exception for which [P] holds. *)
Definition task_spec {A B} (I : world → Prop) (Q : A → Prop) (P : exn → Prop)
    (f : A → M B) (h : A → B) (l : list A) : Prop :=
  ∀ x w, x ∈ l → I w →
    ∃ w', I w'
          ∧ ((Q x ∧ f x w = (w', Ok (h x)))
             ∨ (¬ Q x ∧ ∃ e, P e ∧ f x w = (w', Raise e))).

(** ** Example inputs *)

(** A raw table with the 49 columns of the crop model's output: [V1],
    [V2], [V3] as given, and [v + k] in every row of column [Vk]. *)
Definition sample_table (yrs lats lons : list Q) (v : Q) : DataFrame :=
  ("V1", yrs) :: ("V2", lats) :: ("V3", lons)
  :: map (fun k => ("V" +:+ pretty (Z.of_nat k),
                    map (fun _ => (v + inject_Z (Z.of_nat k))%Q) yrs))
         (seq 4 46).

(** Three grid points of 1980 on a 3 x 2 mesh. *)
Definition table_1980 : DataFrame :=
  sample_table [1980 # 1; 1980 # 1; 1980 # 1]%Q
               [-21 # 2; -10 # 1; -19 # 2]%Q
               [30 # 1; 61 # 2; 30 # 1]%Q (1 # 4)%Q.

(** The same points, with rows of 1980 and of 1981. *)
Definition table_mixed : DataFrame :=
  sample_table [1980 # 1; 1981 # 1; 1980 # 1]%Q
               [-21 # 2; -10 # 1; -19 # 2]%Q
               [30 # 1; 61 # 2; 30 # 1]%Q (1 # 4)%Q.

(** Two rows on one point: the reserved value, then a yield of 5. *)
Definition table_overwrite : DataFrame :=
  [("V1", [1980 # 1; 1980 # 1]); ("V2", [0 # 1; 0 # 1]);
   ("V3", [0 # 1; 0 # 1]); ("V4", [sentinel; 5 # 1])]%Q.

(** One row holding the reserved value, one point without a row. *)
Definition table_sentinel : DataFrame :=
  [("V1", [1980 # 1; 1980 # 1]); ("V2", [0 # 1; 1 # 2]);
   ("V3", [0 # 1; 1 # 2]); ("V4", [sentinel; 5 # 1])]%Q.

(** External operations whose concatenation overwrites its output, ones
    whose concatenation refuses an existing output, and ones whose
    concatenation fails. *)
Definition nco_example : Nco := MkNco Some (fun _ l => Some (concat l)).

Definition nco_refusing : Nco :=
  MkNco Some (fun o l => match o with
                         | None => Some (concat l)
                         | Some _ => None
                         end).

Definition nco_failing : Nco := MkNco Some (fun _ _ => None).

Definition year_cube (yr : Q) : Cube :=
  {| cube_data := masked_equal [[1 # 1]]%Q sentinel;
     cube_time := yr;
     cube_latitude := [0 # 1]%Q; cube_longitude := [0 # 1]%Q;
     cube_prod_lev := (1 # 10)%Q; cube_irr_lev := (0 # 1)%Q;
     cube_rcp := (0 # 1)%Q; cube_model := (0 # 1)%Q; cube_crop := (2 # 1)%Q;
     cube_long_name := "Yield"; cube_units := "kg/ha"; cube_name := "yield" |}.

(** Two year products in an output directory, without and with an older
    file at the final path. *)
Definition two_year_world : world :=
  World {[ "/out" := Dir;
           "/out/m_1980.nc" := NcFile [year_cube (1980 # 1)];
           "/out/m_1981.nc" := NcFile [year_cube (1981 # 1)] ]} [].

Definition malawi_maize : valnames :=
  Valnames "malawi" "maize" "bcc-csm1-1" "rcp26".

Definition malawi_maize_codes : dimvals := Dimvals 0 2 0 0.

(** A year directory with its 120 raw tables, and an input tree of such
    years. *)
Definition year_dir (vn : valnames) (yr : string) (t : DataFrame) : directory :=
  Directory yr
    (flat_map (fun prod =>
                 map (fun irr => (raw_filename vn yr prod irr, Some t)) irr_lst)
              prod_lst).

Definition complete_tree (vn : valnames) (yrs : list string) : input_tree :=
  InputTree "/in/" [] (map (fun yr => year_dir vn yr table_sentinel) yrs).

(** The year 1980 complete; of the year 1981 the table of the levels
    1 and 2 is gone: once with a file of another name in its place, so
    that the directory still holds 120 files, once without. *)
Definition year_dir_replaced (vn : valnames) (yr prod irr : string)
    (t : DataFrame) : directory :=
  Directory yr
    (map (fun f => if String.eqb f.1 (raw_filename vn yr prod irr)
                   then ("notes.txt", None) else f)
         (dir_files (year_dir vn yr t))).

Definition year_dir_missing (vn : valnames) (yr prod irr : string)
    (t : DataFrame) : directory :=
  Directory yr
    (List.filter (fun f => negb (String.eqb f.1 (raw_filename vn yr prod irr)))
                 (dir_files (year_dir vn yr t))).

Definition tree_replaced : input_tree :=
  InputTree "/in/" []
    [year_dir malawi_maize "1980" table_sentinel;
     year_dir_replaced malawi_maize "1981" "1" "2" table_sentinel].

Definition tree_missing : input_tree :=
  InputTree "/in/" []
    [year_dir malawi_maize "1980" table_sentinel;
     year_dir_missing malawi_maize "1981" "1" "2" table_sentinel].

Definition one_file_tree (yr fname : string) (t : DataFrame) : input_tree :=
  InputTree "/in/" [] [Directory yr [(fname, Some t)]].

Definition sample_name : string :=
  raw_filename malawi_maize "1980" "0.1" "0".

Definition sample_path : string := "/in/1980/" +:+ sample_name.

Definition empty_world : world := World ∅ [].

(** The output directory, empty. *)
Definition out_world : world := World {[ "/out" := Dir ]} [].

(** The first of the failed tasks of a pool call finishes first. *)
Definition in_order : list exn → nat := fun _ => 0%nat.

(** * Verified properties *)

(** ** Strings *)

Lemma string_app_cons (x : ascii) (a b : string) :
  String x a +:+ b = String x (a +:+ b).
Proof. reflexivity. Qed.

Lemma string_app_nil_l (a : string) : "" +:+ a = a.
Proof. reflexivity. Qed.

Lemma string_app_nil_r (s : string) : s +:+ "" = s.
Proof.
  induction s as [|a s IH]; [done |]. by rewrite string_app_cons, IH.
Qed.

Lemma string_app_assoc (a b c : string) : (a +:+ b) +:+ c = a +:+ (b +:+ c).
Proof.
  induction a as [|x a IH]; [done |]. by rewrite !string_app_cons, IH.
Qed.

Lemma string_length_app (a b : string) :
  String.length (a +:+ b) = (String.length a + String.length b)%nat.
Proof.
  induction a as [|x a IH]; [done |]. rewrite string_app_cons. simpl.
  by rewrite IH.
Qed.

Lemma string_app_inj_l (p a b : string) : p +:+ a = p +:+ b → a = b.
Proof.
  induction p as [|x p IH]; [done |]. rewrite !string_app_cons.
  intros [=]. auto.
Qed.

Lemma string_app_inj_r (a b t : string) : a +:+ t = b +:+ t → a = b.
Proof.
  revert b. induction a as [|x a IH]; intros [|y b] H.
  - done.
  - apply (f_equal String.length) in H.
    rewrite string_app_cons, string_app_nil_l in H. simpl in H.
    rewrite string_length_app in H. lia.
  - apply (f_equal String.length) in H.
    rewrite string_app_cons, string_app_nil_l in H. simpl in H.
    rewrite string_length_app in H. lia.
  - rewrite !string_app_cons in H. injection H as -> H. f_equal. by apply IH.
Qed.

Lemma fmt_inj (pat : pattern) (i j : Z) : fmt pat i = fmt pat j → i = j.
Proof.
  unfold fmt. intros H.
  apply string_app_inj_l, string_app_inj_r in H.
  by apply (inj pretty) in H.
Qed.

(** ** nextPath *)

(** Linear arithmetic with the halving of [x] made explicit. *)
Ltac halve x :=
  pose proof (Z.div_mod x 2 ltac:(lia));
  pose proof (Z.mod_pos_bound x 2 ltac:(lia)).

Lemma exists_true (fs : gset string) p : Fs.exists_ fs p = true ↔ p ∈ fs.
Proof. unfold Fs.exists_. apply bool_decide_eq_true. Qed.

Lemma exists_false (fs : gset string) p : Fs.exists_ fs p = false ↔ p ∉ fs.
Proof. unfold Fs.exists_. apply bool_decide_eq_false. Qed.

(** A search that runs out of tests has seen an existing file at every
    probe. *)
Lemma exp_search_None fuel fs pat i :
  exp_search fuel fs pat i = None →
  ∀ k : nat, (k < fuel)%nat → fmt pat (i * 2 ^ Z.of_nat k) ∈ fs.
Proof.
  revert i. induction fuel as [|fuel IH]; intros i H k Hk; [lia |].
  simpl in H. destruct (Fs.exists_ fs (fmt pat i)) eqn:E; [|done].
  destruct k as [|k].
  - replace (i * 2 ^ Z.of_nat 0) with i by (simpl; lia).
    by apply exists_true.
  - replace (i * 2 ^ Z.of_nat (S k)) with (i * 2 * 2 ^ Z.of_nat k).
    + apply IH; [done | lia].
    + rewrite Nat2Z.inj_succ, Z.pow_succ_r by lia. lia.
Qed.

Lemma pow2_inj (i : Z) (k1 k2 : nat) :
  1 ≤ i → i * 2 ^ Z.of_nat k1 = i * 2 ^ Z.of_nat k2 → k1 = k2.
Proof.
  intros Hi H.
  apply Z.mul_reg_l in H; [|lia].
  apply Z.pow_inj_r in H; lia.
Qed.

(** The doubling loop ends on every finite file system. *)
Lemma exp_search_total fs pat i :
  1 ≤ i → is_Some (exp_search (S (size fs)) fs pat i).
Proof.
  intros Hi.
  destruct (exp_search (S (size fs)) fs pat i) eqn:E; [by eexists |].
  exfalso.
  pose proof (exp_search_None _ _ _ _ E) as Hall.
  set (l := (fun k : nat => fmt pat (i * 2 ^ Z.of_nat k)) <$> seq 0 (S (size fs))).
  assert (NoDup l) as Hnd.
  { apply NoDup_fmap_2_strong; [|apply NoDup_seq].
    intros x y _ _ Hxy. apply fmt_inj in Hxy. by apply pow2_inj in Hxy. }
  assert (∀ x, x ∈ l → x ∈ elements fs) as Hsub.
  { intros x Hx. apply list_elem_of_fmap in Hx as (k & -> & Hk).
    apply elem_of_seq in Hk. apply elem_of_elements, Hall. lia. }
  pose proof (submseteq_length _ _ (NoDup_submseteq _ _ Hnd Hsub)) as Hlen.
  unfold l in Hlen. rewrite length_fmap, length_seq in Hlen.
  unfold size, set_size in *. simpl in *. lia.
Qed.

Lemma nextPath_total fs pat : is_Some (nextPath fs pat).
Proof.
  unfold nextPath.
  destruct (exp_search_total fs pat 1) as [i Hi]; [lia |].
  rewrite Hi. simpl. by eexists.
Qed.

(** What the doubling loop returns: a free probe that is either the start
    or the double of an existing probe. *)
Lemma exp_search_Some fuel fs pat i j :
  1 ≤ i →
  exp_search fuel fs pat i = Some j →
  i ≤ j ∧ (fmt pat j ∉ fs) ∧
  (j = i ∨ (fmt pat (j / 2) ∈ fs ∧ (j = 2 * (j / 2)))).
Proof.
  revert i. induction fuel as [|fuel IH]; intros i Hi H; [done |].
  simpl in H. destruct (Fs.exists_ fs (fmt pat i)) eqn:E.
  - destruct (IH (i * 2) ltac:(lia) H) as (Hle & Hfree & Hcase).
    split; [lia |]. split; [done |]. right.
    destruct Hcase as [-> | [H1 H2]].
    + rewrite Z.div_mul by lia. split; [by apply exists_true | lia].
    + done.
  - injection H as <-. split; [lia |]. split; [by apply exists_false | by left].
Qed.

Section contiguous.

Variables (fs : gset string) (pat : pattern) (N : Z).
Hypothesis contiguous : ∀ i : Z, 1 ≤ i → fmt pat i ∈ fs ↔ i < N.

Lemma bin_search_contiguous fuel a b :
  0 ≤ a → a < N → N ≤ b → b - a ≤ Z.of_nat fuel →
  bin_search fuel fs pat a b = N.
Proof using contiguous.
  revert a b. induction fuel as [|fuel IH]; intros a b Ha HaN HNb Hf; [lia |].
  simpl. destruct (a + 1 <? b) eqn:E.
  - apply Z.ltb_lt in E.
    assert (a < (a + b) / 2 < b) as Hc.
    { halve (a + b). lia. }
    destruct (Fs.exists_ fs (fmt pat ((a + b) / 2))) eqn:Ex.
    + apply exists_true, contiguous in Ex; [|lia]. apply IH; lia.
    + apply exists_false in Ex.
      assert (N ≤ (a + b) / 2).
      { destruct (decide (N ≤ (a + b) / 2)); [done |].
        exfalso. apply Ex, contiguous; lia. }
      apply IH; lia.
  - apply Z.ltb_ge in E. lia.
Qed.

Lemma nextPath_contiguous : 1 ≤ N → nextPath fs pat = Some (fmt pat N).
Proof using contiguous.
  intros HN. unfold nextPath.
  destruct (exp_search_total fs pat 1) as [j Hj]; [lia |].
  rewrite Hj. simpl. do 2 f_equal.
  destruct (exp_search_Some _ _ _ 1 _ ltac:(lia) Hj) as (H1 & Hfree & Hcase).
  assert (N ≤ j).
  { destruct (decide (N ≤ j)); [done |]. exfalso. apply Hfree, contiguous; lia. }
  assert (j / 2 < N).
  { destruct Hcase as [-> | [Hex _]].
    - change (1 / 2) with 0. lia.
    - destruct (decide (1 ≤ j / 2)).
      + by apply contiguous.
      + lia. }
  halve j. apply bin_search_contiguous; lia.
Qed.

End contiguous.

(** C8. If, among the paths of the pattern, exactly those with suffixes
    [1 .. N-1] exist ([N >= 1]), then [nextPath] returns the path with
    suffix [N]. *)
Theorem nextPath_returns_first_free (fs : gset string) (pat : pattern) (N : Z) :
  1 ≤ N →
  (∀ i : Z, 1 ≤ i → fmt pat i ∈ fs ↔ i < N) →
  nextPath fs pat = Some (fmt pat N).
Proof. intros HN H. by apply nextPath_contiguous. Qed.

Lemma nextPath_returns_first_free_witness :
  nextPath {["o.nc"; "o_1.nc"; "o_2.nc"]} (Pattern "o_" ".nc") = Some "o_3.nc".
Proof.
  apply (nextPath_returns_first_free _ (Pattern "o_" ".nc") 3); [lia |].
  intros i Hi. split.
  - intros Hin. apply elem_of_union in Hin as [Hin | Hin].
    + apply elem_of_union in Hin as [Hin | Hin].
      * apply elem_of_singleton in Hin. discriminate Hin.
      * apply elem_of_singleton in Hin.
        apply (fmt_inj (Pattern "o_" ".nc") i 1) in Hin. lia.
    + apply elem_of_singleton in Hin.
      apply (fmt_inj (Pattern "o_" ".nc") i 2) in Hin. lia.
  - intros Hlt. assert (i = 1 ∨ i = 2) as [-> | ->] by lia; set_solver.
Defined.

(** ** The monad *)

Lemma bind_Ok_inv {A B} (m : M A) (k : A → M B) w w' b :
  (m ≫= k) w = (w', Ok b) →
  ∃ w1 a, m w = (w1, Ok a) ∧ k a w1 = (w', Ok b).
Proof.
  unfold mbind, M_bind. destruct (m w) as [w1 [a | e]]; [eauto | discriminate].
Qed.

Lemma bind_lift_Ok_inv {A B} (r : result A) (k : A → M B) w w' b :
  (lift r ≫= k) w = (w', Ok b) → ∃ a, r = Ok a ∧ k a w = (w', Ok b).
Proof.
  intros (w1 & a & H1 & H2)%bind_Ok_inv. unfold lift in H1.
  injection H1 as <- ->. eauto.
Qed.

Lemma of_option_Ok {A} e (o : option A) a : of_option e o = Ok a ↔ o = Some a.
Proof. destruct o; simpl; split; congruence. Qed.

Lemma result_bind_Ok_inv {A B} (r : result A) (k : A → result B) b :
  r ≫= k = Ok b → ∃ a, r = Ok a ∧ k a = Ok b.
Proof. destruct r; simpl; [eauto | discriminate]. Qed.

(** ** readascii *)

Lemma layers_Ok templ v2 v3 cols cubes :
  layers templ v2 v3 cols = Ok cubes →
  Forall2 (layer_of templ v2 v3)
          (List.filter (λ cv, is_variable cv.1) cols) cubes.
Proof.
  revert cubes. induction cols as [| [col vals] cols IH]; intros cubes H.
  - injection H as <-. constructor.
  - cbn [layers] in H. cbn [List.filter fst]. unfold is_variable.
    apply result_bind_Ok_inv in H as (num & Hnum & H).
    apply of_option_Ok in Hnum. rewrite Hnum.
    destruct (3 <? num); [| by apply IH].
    apply result_bind_Ok_inv in H as (data & Hdata & H).
    apply result_bind_Ok_inv in H as (ln & Hln%of_option_Ok & H).
    cbn beta in H.
    apply result_bind_Ok_inv in H as (un & Hun%of_option_Ok & H).
    apply result_bind_Ok_inv in H as (nm & Hnm%of_option_Ok & H).
    apply result_bind_Ok_inv in H as (rest & Hrest & H).
    injection H as <-. constructor; [| by apply IH].
    exists data. split; [exact Hdata |]. do 4 (split; [reflexivity |]).
    split; [by exists ln |]. split; [exact Hnm |]. split; [exact Hun | exact Hnm].
Qed.

(** A successful [readascii] read the table, found one year in it, printed
    nothing, and returns the layers over the template of the table. *)
Lemma readascii_Ok_inv tree path dv w w' cubes :
  readascii tree path dv w = (w', Ok cubes) →
  ∃ df v1 v2 v3 y prodlev irr_lev n s e wst,
    read_csv tree path = Ok df
    ∧ df_col df "V2" = Some v2 ∧ df_col df "V3" = Some v3
    ∧ df_col df "V1" = Some v1
    ∧ all_same_year v1 = Ok true ∧ v1 !! 1%nat = Some y
    ∧ filename_level (Py.os_path_split path).2 3 = Ok prodlev
    ∧ filename_level (Py.os_path_split path).2 2 = Ok irr_lev
    ∧ col_max v2 = Some n ∧ col_min v2 = Some s
    ∧ col_max v3 = Some e ∧ col_min v3 = Some wst
    ∧ (let templ := mesh_template n s e wst y prodlev irr_lev dv in
       t_grid templ = replicate (length (t_latitude templ))
                        (replicate (length (t_longitude templ)) sentinel)
       ∧ layers templ v2 v3 df = Ok cubes)
    ∧ w' = w.
Proof.
  unfold readascii. intros H.
  apply bind_lift_Ok_inv in H as (df & Hdf & H).
  apply bind_lift_Ok_inv in H as (v2 & Hv2%of_option_Ok & H).
  apply bind_lift_Ok_inv in H as (v3 & Hv3%of_option_Ok & H).
  apply bind_lift_Ok_inv in H as (v1 & Hv1%of_option_Ok & H).
  apply bind_lift_Ok_inv in H as (same & Hsame & H).
  apply bind_Ok_inv in H as (w1 & time & Htime & H).
  apply bind_lift_Ok_inv in H as (prodlev & Hprod & H).
  apply bind_lift_Ok_inv in H as (irr_lev & Hirr & H).
  apply bind_lift_Ok_inv in H as (n & Hn%of_option_Ok & H).
  apply bind_lift_Ok_inv in H as (s & Hs%of_option_Ok & H).
  apply bind_lift_Ok_inv in H as (e & He%of_option_Ok & H).
  apply bind_lift_Ok_inv in H as (wst & Hw%of_option_Ok & H).
  apply bind_lift_Ok_inv in H as (y & Hy%of_option_Ok & H).
  destruct same.
  - apply bind_lift_Ok_inv in Htime as (y' & Hy'%of_option_Ok & Htime).
    injection Htime as <- <-. injection Hy as ->.
    match type of H with
    | (if negb ?c then _ else _) _ = _ => destruct c eqn:Hshape
    end; [| discriminate H].
    cbn [negb] in H. unfold lift in H. injection H as <- Hl.
    apply andb_prop in Hshape as [Hlat%Nat.eqb_eq Hlon%Nat.eqb_eq].
    exists df, v1, v2, v3, y, prodlev, irr_lev, n, s, e, wst.
    repeat split; try done.
    cbn. by rewrite Hlat, Hlon.
  - apply bind_Ok_inv in Htime as (? & [] & _ & Htime).
    apply bind_Ok_inv in Htime as (? & [] & _ & Htime).
    injection Htime as <- <-. discriminate Hy.
Qed.

Lemma filter_map_fst {A B} (f : A → bool) (l : list (A * B)) :
  map fst (List.filter (λ cv, f cv.1) l) = List.filter f (map fst l).
Proof.
  induction l as [| [a b] l IH]; [done |]. cbn. destruct (f a); cbn; by rewrite IH.
Qed.

Lemma Forall2_lookup_names {A B C} (g : A → option C) (h : B → C) l cubes :
  Forall2 (λ a b, g a = Some (h b)) l cubes → mapM g l = Some (map h cubes).
Proof.
  induction 1 as [| a b l cubes Hab _ IH]; [done |].
  cbn. rewrite Hab. cbn. by rewrite IH.
Qed.

(** C5, amended.  For a table with the 49 columns [V1 .. V49], every
    successful call of [readascii] returns exactly 46 layers, one for each
    of the columns [V4 .. V49] in file order, named after them. *)
Theorem readascii_full_table_layers tree path dv w w' cubes df :
  read_csv tree path = Ok df →
  map fst df = map fst column →
  readascii tree path dv w = (w', Ok cubes) →
  length cubes = 46%nat
  ∧ map cube_name cubes = drop 3 (map snd var_nm).
Proof.
  intros Hdf Hcols H.
  apply readascii_Ok_inv in H
    as (df' & v1 & v2 & v3 & y & pl & il & n & s & e & wst & Hdf' & _ & _ & _
        & _ & _ & _ & _ & _ & _ & _ & _ & (_ & Hlayers) & _).
  rewrite Hdf in Hdf'. injection Hdf' as <-.
  apply layers_Ok in Hlayers.
  assert (Forall2 (λ col cube, Py.dict_get var_nm col = Some (cube_name cube))
            (List.filter is_variable (map fst df)) cubes) as Hnames.
  { rewrite <- filter_map_fst. apply Forall2_fmap_l.
    eapply Forall2_impl; [exact Hlayers |].
    intros cv cube (data & _ & _ & _ & _ & _ & _ & _ & _ & Hnm). exact Hnm. }
  rewrite Hcols in Hnames. split.
  - apply Forall2_length in Hnames. rewrite <- Hnames. by vm_compute.
  - apply Forall2_lookup_names in Hnames.
    assert (mapM (Py.dict_get var_nm) (List.filter is_variable (map fst column))
            = Some (drop 3 (map snd var_nm))) as Hm by (by vm_compute).
    rewrite Hm in Hnames. by injection Hnames.
Qed.

Lemma readascii_full_table_layers_witness :
  ∃ cubes,
    readascii (one_file_tree "1980" sample_name table_1980) sample_path
      malawi_maize_codes empty_world = (empty_world, Ok cubes)
    ∧ length cubes = 46%nat
    ∧ map cube_name cubes = drop 3 (map snd var_nm).
Proof.
  eexists. split; [by vm_compute |].
  apply (readascii_full_table_layers
           (one_file_tree "1980" sample_name table_1980) sample_path
           malawi_maize_codes empty_world empty_world _ table_1980);
    by vm_compute.
Defined.

Lemma readascii_45_layers_counterexample :
  ∃ cubes,
    read_csv (one_file_tree "1980" sample_name table_1980) sample_path
      = Ok table_1980
    ∧ length table_1980 = 49%nat
    ∧ readascii (one_file_tree "1980" sample_name table_1980) sample_path
        malawi_maize_codes empty_world = (empty_world, Ok cubes)
    ∧ length cubes ≠ 45%nat.
Proof.
  eexists. split; [by vm_compute |]. split; [by vm_compute |].
  split; [by vm_compute |]. by vm_compute.
Qed.

Lemma col_max_is_Some (l : list Q) : l ≠ [] → is_Some (col_max l).
Proof. destruct l as [| x l]; [done |]. intros _. cbn. by destruct (col_max l). Qed.

Lemma col_min_is_Some (l : list Q) : l ≠ [] → is_Some (col_min l).
Proof. destruct l as [| x l]; [done |]. intros _. cbn. by destruct (col_min l). Qed.

Lemma all_same_year_false_nonempty v1 : all_same_year v1 = Ok false → v1 ≠ [].
Proof. by destruct v1. Qed.

(** C2.  On a table that parses, has its three coordinate columns of one
    length and a well-formed file name, but mixes years, [readascii]
    prints the two lines of the message and then raises
    [UnboundLocalError]: [time] was never bound when the template cube is
    built.  No layer is returned. *)
Theorem readascii_mixed_years_raises tree path dv w df v1 v2 v3 :
  read_csv tree path = Ok df →
  df_col df "V1" = Some v1 →
  df_col df "V2" = Some v2 →
  df_col df "V3" = Some v3 →
  length v2 = length v1 →
  length v3 = length v1 →
  is_ok (filename_level (Py.os_path_split path).2 3) = true →
  is_ok (filename_level (Py.os_path_split path).2 2) = true →
  all_same_year v1 = Ok false →
  readascii tree path dv w =
    (World (files w)
       (stdout w ++ ["Error in data file " +:+ (Py.os_path_split path).2
                       +:+ "." +:+ newline;
                     "Multiple years read within same file"]),
     Raise UnboundLocalError).
Proof.
  intros Hdf Hv1 Hv2 Hv3 Hl2 Hl3 Hp Hi Hsame.
  pose proof (all_same_year_false_nonempty _ Hsame) as Hne.
  assert (v2 ≠ []) as Hne2 by (destruct v2, v1; done).
  assert (v3 ≠ []) as Hne3 by (destruct v3, v1; done).
  destruct (col_max_is_Some v2 Hne2) as [n Hn].
  destruct (col_min_is_Some v2 Hne2) as [s Hs].
  destruct (col_max_is_Some v3 Hne3) as [e He].
  destruct (col_min_is_Some v3 Hne3) as [wst Hw].
  destruct (filename_level _ 3) as [pl |] eqn:Hpl; [| discriminate Hp].
  destruct (filename_level _ 2) as [il |] eqn:Hil; [| discriminate Hi].
  unfold readascii, mbind, M_bind, lift, print, mret, M_ret.
  rewrite Hdf, Hv2, Hv3, Hv1. cbn [of_option]. rewrite Hsame.
  cbn [files stdout]. rewrite Hpl, Hil, Hn, Hs, He, Hw. cbn [of_option].
  by rewrite <- app_assoc.
Qed.

Lemma readascii_mixed_years_raises_witness :
  readascii (one_file_tree "1980" sample_name table_mixed) sample_path
    malawi_maize_codes empty_world =
    (World ∅ ["Error in data file " +:+ sample_name +:+ "." +:+ newline;
              "Multiple years read within same file"],
     Raise UnboundLocalError).
Proof.
  apply (readascii_mixed_years_raises
           (one_file_tree "1980" sample_name table_mixed) sample_path
           malawi_maize_codes empty_world table_mixed
           [1980 # 1; 1981 # 1; 1980 # 1]%Q
           [-21 # 2; -10 # 1; -19 # 2]%Q
           [30 # 1; 61 # 2; 30 # 1]%Q); by vm_compute.
Defined.

(** ** Writing into the grid *)

Lemma cell_write_eq {A} (data : list (list A)) a b v nlat nlon :
  rect nlat nlon data → (a < nlat)%nat → (b < nlon)%nat →
  cell (alter (<[b := v]>) a data) a b = Some v.
Proof.
  intros [Hl Hr] Ha Hb. unfold cell. rewrite list_lookup_alter_eq.
  destruct (lookup_lt_is_Some_2 data a) as [row Hrow]; [lia |].
  rewrite Hrow. cbn. apply list_lookup_insert_eq.
  rewrite Forall_lookup in Hr. by rewrite (Hr _ _ Hrow).
Qed.

Lemma cell_write_ne {A} (data : list (list A)) a b v a' b' :
  (a, b) ≠ (a', b') →
  cell (alter (<[b := v]>) a data) a' b' = cell data a' b'.
Proof.
  intros Hne. unfold cell. destruct (decide (a = a')) as [<- | Ha].
  - rewrite list_lookup_alter_eq. destruct (data !! a) as [row |]; [| done].
    cbn. apply list_lookup_insert_ne. congruence.
  - by rewrite list_lookup_alter_ne.
Qed.

Lemma rect_write {A} (data : list (list A)) a b v nlat nlon :
  rect nlat nlon data → rect nlat nlon (alter (<[b := v]>) a data).
Proof.
  intros [Hl Hr]. split; [by rewrite length_alter |].
  rewrite Forall_lookup in Hr. rewrite Forall_lookup. intros i row.
  rewrite list_lookup_alter. destruct (decide (a = i)) as [<- |]; [| by apply Hr].
  destruct (data !! a) as [row0 |] eqn:E; [| done]. cbn. intros [= <-].
  rewrite length_insert. by apply (Hr a).
Qed.

Lemma rect_replicate {A} nlat nlon (x : A) :
  rect nlat nlon (replicate nlat (replicate nlon x)).
Proof.
  split; [by rewrite length_replicate |].
  apply Forall_replicate. by rewrite length_replicate.
Qed.

Lemma cell_replicate {A} nlat nlon (x : A) a b :
  (a < nlat)%nat → (b < nlon)%nat →
  cell (replicate nlat (replicate nlon x)) a b = Some x.
Proof.
  intros Ha Hb. unfold cell. rewrite lookup_replicate_2 by done. cbn.
  by rewrite lookup_replicate_2.
Qed.

Lemma np_where_from_head i pts x a :
  np_where_from i pts x !! 0%nat = Some a →
  (i ≤ a)%nat ∧ ∃ p, pts !! (a - i)%nat = Some p ∧ (p == x)%Q.
Proof.
  revert i. induction pts as [| p pts IH]; intros i; cbn; [done |].
  destruct (Qeq_bool p x) eqn:E.
  - cbn. intros [= <-]. split; [lia |]. exists p. rewrite Nat.sub_diag.
    split; [done |]. by apply Qeq_bool_eq.
  - intros H. apply IH in H as [Hle (q & Hq & Hqx)]. split; [lia |].
    exists q. split; [| done].
    by replace (a - i)%nat with (S (a - S i)) by lia.
Qed.

Lemma np_where_head pts x a :
  np_where pts x !! 0%nat = Some a → ∃ p, pts !! a = Some p ∧ (p == x)%Q.
Proof.
  intros (_ & p & Hp & Hpx)%np_where_from_head.
  rewrite Nat.sub_0_r in Hp. eauto.
Qed.

Lemma cell_of_Some lat_pts lon_pts lat lon a b :
  cell_of lat_pts lon_pts lat lon = Some (a, b) ↔
  np_where lat_pts lat !! 0%nat = Some a ∧ np_where lon_pts lon !! 0%nat = Some b.
Proof.
  unfold cell_of.
  destruct (np_where lat_pts lat !! 0%nat) as [a' |]; cbn;
    [destruct (np_where lon_pts lon !! 0%nat) as [b' |]; cbn |];
    split; try (intros [= <- <-]); try (intros [[= <-] [= <-]]);
    try done; intros []; done.
Qed.

(** The cell a row is written to lies on the mesh, at a point equal to the
    row's latitude and longitude. *)
Lemma cell_of_coords lat_pts lon_pts lat lon a b :
  cell_of lat_pts lon_pts lat lon = Some (a, b) →
  ∃ plat plon,
    lat_pts !! a = Some plat ∧ (plat == lat)%Q
    ∧ lon_pts !! b = Some plon ∧ (plon == lon)%Q.
Proof.
  intros [Ha Hb]%cell_of_Some.
  apply np_where_head in Ha as (plat & ? & ?).
  apply np_where_head in Hb as (plon & ? & ?). by exists plat, plon.
Qed.

Lemma fill_rows_cons lat_pts lon_pts lat lon v rows data data' :
  fill_rows lat_pts lon_pts ((lat, lon, v) :: rows) data = Ok data' →
  ∃ a b, cell_of lat_pts lon_pts lat lon = Some (a, b)
         ∧ fill_rows lat_pts lon_pts rows (alter (<[b := v]>) a data) = Ok data'.
Proof.
  cbn [fill_rows]. intros H.
  apply result_bind_Ok_inv in H as (a & Ha%of_option_Ok & H).
  apply result_bind_Ok_inv in H as (b & Hb%of_option_Ok & H).
  exists a, b. split; [by apply cell_of_Some | done].
Qed.

Lemma fill_rows_rect lat_pts lon_pts rows data data' nlat nlon :
  fill_rows lat_pts lon_pts rows data = Ok data' →
  rect nlat nlon data → rect nlat nlon data'.
Proof.
  revert data. induction rows as [| [[lat lon] v] rows IH]; intros data H Hr.
  - by injection H as <-.
  - apply fill_rows_cons in H as (a & b & _ & H).
    eapply IH; [exact H |]. by apply rect_write.
Qed.

(** A cell that no row is written to keeps its content. *)
Lemma fill_rows_untouched lat_pts lon_pts rows data data' a b :
  fill_rows lat_pts lon_pts rows data = Ok data' →
  (∀ lat lon v, (lat, lon, v) ∈ rows →
     cell_of lat_pts lon_pts lat lon ≠ Some (a, b)) →
  cell data' a b = cell data a b.
Proof.
  revert data. induction rows as [| [[lat lon] v] rows IH]; intros data H Hno.
  - by injection H as <-.
  - apply fill_rows_cons in H as (a0 & b0 & Hc & H).
    rewrite (IH _ H); [| intros ????; eapply Hno; by right].
    apply cell_write_ne. intros [= -> ->].
    by apply (Hno lat lon v); [left |].
Qed.

(** Every row is written to its cell, and the cell holds the row's value
    at the end unless a later row is written to the same cell. *)
Lemma fill_rows_written lat_pts lon_pts rows data data' i lat lon v :
  fill_rows lat_pts lon_pts rows data = Ok data' →
  rect (length lat_pts) (length lon_pts) data →
  rows !! i = Some (lat, lon, v) →
  ∃ a b,
    cell_of lat_pts lon_pts lat lon = Some (a, b)
    ∧ ((∀ j lat' lon' v', (i < j)%nat → rows !! j = Some (lat', lon', v') →
          cell_of lat_pts lon_pts lat' lon' ≠ Some (a, b)) →
       cell data' a b = Some v).
Proof.
  revert data i.
  induction rows as [| [[lat0 lon0] v0] rows IH]; intros data i H Hr Hi; [done |].
  apply fill_rows_cons in H as (a0 & b0 & Hc & H).
  destruct i as [| i].
  - injection Hi as -> -> ->. exists a0, b0. split; [done |]. intros Hlater.
    rewrite (fill_rows_untouched _ _ _ _ _ _ _ H).
    + apply cell_of_coords in Hc as (plat & plon & Ha & _ & Hb & _).
      apply lookup_lt_Some in Ha, Hb. by eapply cell_write_eq.
    + intros lat' lon' v' [j Hj]%list_elem_of_lookup.
      apply (Hlater (S j) lat' lon' v'); [lia | done].
  - destruct (IH _ i H (rect_write _ _ _ _ _ _ Hr) Hi) as (a & b & Hab & Hcell).
    exists a, b. split; [done |]. intros Hlater. apply Hcell.
    intros j lat' lon' v' Hij Hj.
    apply (Hlater (S j) lat' lon' v'); [lia | done].
Qed.

Lemma cell_fmap {A B} (f : A → B) (data : list (list A)) a b :
  cell (map (map f) data) a b = f <$> cell data a b.
Proof.
  unfold cell. change (map (map f) data) with (fmap (M := list) (map f) data).
  rewrite list_lookup_fmap. destruct (data !! a) as [row |]; [| done].
  cbn. apply (list_lookup_fmap f).
Qed.

Lemma same_cell_same_coords lat_pts lon_pts lat lon lat' lon' c :
  cell_of lat_pts lon_pts lat lon = Some c →
  cell_of lat_pts lon_pts lat' lon' = Some c →
  (lat' == lat)%Q ∧ (lon' == lon)%Q.
Proof.
  destruct c as [a b].
  intros (p & q & Hp & Hpl & Hq & Hql)%cell_of_coords
         (p' & q' & Hp' & Hpl' & Hq' & Hql')%cell_of_coords.
  rewrite Hp in Hp'. rewrite Hq in Hq'. injection Hp' as <-. injection Hq' as <-.
  split; [by rewrite <- Hpl, <- Hpl' | by rewrite <- Hql, <- Hql'].
Qed.

Lemma rows_lookup {A B C} (v2 : list A) (v3 : list B) (vals : list C) i lat lon v :
  zip (zip v2 v3) vals !! i = Some (lat, lon, v) →
  zip v2 v3 !! i = Some (lat, lon) ∧ vals !! i = Some v.
Proof.
  intros (p & v' & [= <- <-] & Hp & Hv)%lookup_zip_with_Some. done.
Qed.

(** The cells of one layer: a row's cell holds the row's value, masked
    exactly when the value equals the reserved one, unless a later row is
    written to the same cell; a cell that no row is written to holds the
    reserved value and is masked. *)
Lemma layer_cells templ v2 v3 cv cube :
  t_grid templ = replicate (length (t_latitude templ))
                   (replicate (length (t_longitude templ)) sentinel) →
  layer_of templ v2 v3 cv cube →
  (∀ i lat lon v,
     zip (zip v2 v3) cv.2 !! i = Some (lat, lon, v) →
     ∃ a b,
       cell_of (cube_latitude cube) (cube_longitude cube) lat lon = Some (a, b)
       ∧ ((∀ j lat' lon' v', (i < j)%nat →
             zip (zip v2 v3) cv.2 !! j = Some (lat', lon', v') →
             cell_of (cube_latitude cube) (cube_longitude cube) lat' lon'
               ≠ Some (a, b)) →
          cell (ma_data (cube_data cube)) a b = Some v
          ∧ cell (ma_mask (cube_data cube)) a b = Some (Qeq_bool v sentinel)))
  ∧ (∀ a b,
       (a < length (cube_latitude cube))%nat →
       (b < length (cube_longitude cube))%nat →
       (∀ lat lon v, (lat, lon, v) ∈ zip (zip v2 v3) cv.2 →
          cell_of (cube_latitude cube) (cube_longitude cube) lat lon
            ≠ Some (a, b)) →
       cell (ma_data (cube_data cube)) a b = Some sentinel
       ∧ cell (ma_mask (cube_data cube)) a b = Some true).
Proof.
  intros Hgrid (data & Hfill & Hdata & _ & Hlat & Hlon & _).
  rewrite Hdata, Hlat, Hlon. cbn [ma_data ma_mask masked_equal]. split.
  - intros i lat lon v Hi.
    assert (rect (length (t_latitude templ)) (length (t_longitude templ))
              (t_grid templ)) as Hrect.
    { rewrite Hgrid. apply rect_replicate. }
    destruct (fill_rows_written _ _ _ _ _ _ _ _ _ Hfill Hrect Hi)
      as (a & b & Hab & Hcell).
    exists a, b. split; [done |]. intros Hlater.
    rewrite cell_fmap, (Hcell Hlater). done.
  - intros a b Ha Hb Hno.
    rewrite cell_fmap, (fill_rows_untouched _ _ _ _ _ _ _ Hfill Hno), Hgrid.
    rewrite cell_replicate by done. done.
Qed.

(** The layers of a successful [readascii] over the columns of its table. *)
Lemma readascii_layers tree path dv w w' cubes df :
  read_csv tree path = Ok df →
  readascii tree path dv w = (w', Ok cubes) →
  ∃ templ v2 v3,
    df_col df "V2" = Some v2 ∧ df_col df "V3" = Some v3
    ∧ t_grid templ = replicate (length (t_latitude templ))
                       (replicate (length (t_longitude templ)) sentinel)
    ∧ Forall2 (layer_of templ v2 v3)
              (List.filter (λ cv, is_variable cv.1) df) cubes.
Proof.
  intros Hdf H.
  apply readascii_Ok_inv in H
    as (df' & v1 & v2 & v3 & y & pl & il & n & s & e & wst & Hdf' & Hv2 & Hv3
        & _ & _ & _ & _ & _ & _ & _ & _ & _ & (Hgrid & Hlayers) & _).
  rewrite Hdf in Hdf'. injection Hdf' as <-.
  eexists _, v2, v3. repeat split; [done | done | exact Hgrid |].
  by apply layers_Ok.
Qed.



(** C10, amended.  Whenever [readascii] returns, a row whose value equals
    the reserved value -99, and which no later row of the same point
    follows (so, every such row of a table with distinct points), is
    stored as a masked cell holding -99: the same content as a cell
    without a row. *)
Theorem readascii_sentinel_value_masked tree path dv w w' cubes df v2 v3 :
  read_csv tree path = Ok df →
  df_col df "V2" = Some v2 →
  df_col df "V3" = Some v3 →
  readascii tree path dv w = (w', Ok cubes) →
  Forall2 (sentinel_rows_masked v2 v3)
          (List.filter (λ cv, is_variable cv.1) df) cubes.
Proof.
  intros Hdf Hv2 Hv3 H.
  destruct (readascii_layers _ _ _ _ _ _ _ Hdf H)
    as (templ & v2' & v3' & Hv2' & Hv3' & Hgrid & Hl).
  rewrite Hv2 in Hv2'. rewrite Hv3 in Hv3'.
  injection Hv2' as <-. injection Hv3' as <-.
  eapply Forall2_impl; [exact Hl |]. intros cv cube Hlayer.
  destruct (layer_cells _ _ _ _ _ Hgrid Hlayer) as [Hrow _].
  intros i lat lon v Hi Hv Hlast.
  destruct (Hrow _ _ _ _ Hi) as (a & b & Hab & Hcell).
  destruct Hcell as [Hd Hm].
  { intros j lat' lon' v' Hij Hj Hsame.
    destruct (same_cell_same_coords _ _ _ _ _ _ _ Hab Hsame) as [E1 E2].
    apply rows_lookup in Hj as [Hj Hjv].
    apply (Hlast j lat' lon'); [done | by eapply lookup_lt_Some | done | done]. }
  exists a, b, v. repeat split; try done.
  - rewrite Hm. f_equal. by apply Qeq_eq_bool.
  - destruct Hlayer as (data & _ & -> & _). done.
Qed.

Lemma readascii_sentinel_value_masked_witness :
  ∃ cubes,
    readascii (one_file_tree "1980" sample_name table_sentinel) sample_path
      malawi_maize_codes empty_world = (empty_world, Ok cubes)
    ∧ Forall2 (sentinel_rows_masked [0 # 1; 1 # 2]%Q [0 # 1; 1 # 2]%Q)
        (List.filter (λ cv, is_variable cv.1) table_sentinel) cubes.
Proof.
  eexists. split; [by vm_compute |].
  apply (readascii_sentinel_value_masked
           (one_file_tree "1980" sample_name table_sentinel) sample_path
           malawi_maize_codes empty_world empty_world _ table_sentinel);
    by vm_compute.
Defined.

Lemma sentinel_row_overwritten_counterexample :
  ∃ cube,
    read_csv (one_file_tree "1980" sample_name table_overwrite) sample_path
      = Ok table_overwrite
    ∧ df_col table_overwrite "V4" = Some [sentinel; 5 # 1]%Q
    ∧ readascii (one_file_tree "1980" sample_name table_overwrite) sample_path
        malawi_maize_codes empty_world = (empty_world, Ok [cube])
    ∧ cube_latitude cube = [0 # 1]%Q ∧ cube_longitude cube = [0 # 1]%Q
    ∧ cell (ma_data (cube_data cube)) 0 0 = Some (5 # 1)%Q
    ∧ cell (ma_mask (cube_data cube)) 0 0 = Some false.
Proof.
  eexists. split; [by vm_compute |]. split; [by vm_compute |].
  split; [by vm_compute |]. by vm_compute.
Qed.

(** ** The order of [list.sort] on paths *)

Lemma str_le_prefix (p a b : string) :
  Py.str_le (p +:+ a) (p +:+ b) = Py.str_le a b.
Proof.
  induction p as [| x p IH]; [done |].
  rewrite !string_app_cons. cbn [Py.str_le].
  by rewrite N.ltb_irrefl.
Qed.

Lemma str_le_total (a b : string) :
  Py.str_le a b = true ∨ Py.str_le b a = true.
Proof.
  revert b. induction a as [| x a IH]; intros [| y b]; cbn; auto.
  destruct (N.ltb_spec (N_of_ascii x) (N_of_ascii y)); [auto |].
  destruct (N.ltb_spec (N_of_ascii y) (N_of_ascii x)); [auto |].
  apply IH.
Qed.

#[global] Instance str_le_Total : Total str_le.
Proof. intros a b. apply str_le_total. Qed.

Lemma digit_code (x : ascii) :
  is_Some (Py.digit x) → (48 ≤ N_of_ascii x ≤ 57)%N.
Proof.
  unfold Py.digit.
  destruct (Z.leb_spec 48 (Z.of_N (N_of_ascii x)));
    destruct (Z.leb_spec (Z.of_N (N_of_ascii x)) 57); cbn;
    intros [? ?]; try discriminate; lia.
Qed.

(** On digit strings the order of the year paths is the order of the
    years: the suffix [.nc] starts below every digit. *)
Lemma str_le_nc_suffix (a b : string) :
  all_digits a = true → all_digits b = true →
  Py.str_le (a +:+ ".nc") (b +:+ ".nc") = true → Py.str_le a b = true.
Proof.
  revert b. induction a as [| x a IH]; intros [| y b] Ha Hb; try done.
  - cbn in Ha. apply andb_prop in Ha as [Hx%bool_decide_eq_true _].
    apply digit_code in Hx.
    rewrite string_app_cons, string_app_nil_l. cbn [Py.str_le].
    change (N_of_ascii ".") with 46%N.
    destruct (N.ltb_spec (N_of_ascii x) 46); [lia |].
    destruct (N.ltb_spec 46 (N_of_ascii x)); [done | lia].
  - cbn in Ha, Hb. apply andb_prop in Ha as [_ Ha]. apply andb_prop in Hb as [_ Hb].
    rewrite !string_app_cons. cbn [Py.str_le].
    destruct (_ <? _)%N; [done |]. destruct (_ <? _)%N; [done |]. by apply IH.
Qed.

Lemma outnm_le (outfil a b : string) :
  all_digits a = true → all_digits b = true →
  str_le (outnm outfil a) (outnm outfil b) → str_le a b.
Proof.
  unfold str_le, outnm. intros Ha Hb.
  rewrite !str_le_prefix. by apply str_le_nc_suffix.
Qed.

Lemma digits_acc_value (s : string) (acc : Z) :
  all_digits s = true →
  ∃ v, Py.digits_acc acc s = Some (acc * 10 ^ Z.of_nat (String.length s) + v)
       ∧ 0 ≤ v < 10 ^ Z.of_nat (String.length s).
Proof.
  revert acc. induction s as [| x s IH]; intros acc Hs.
  - exists 0. cbn. split; [f_equal; lia | lia].
  - cbn in Hs. apply andb_prop in Hs as [Hx%bool_decide_eq_true Hs].
    pose proof (digit_code _ Hx) as Hc. destruct Hx as [d Hd].
    destruct (IH (acc * 10 + d) Hs) as (v & Hv & Hb).
    assert (0 ≤ d ≤ 9) as Hd9.
    { unfold Py.digit in Hd. destruct (_ && _); [| done]. injection Hd as <-. lia. }
    exists (d * 10 ^ Z.of_nat (String.length s) + v).
    cbn [Py.digits_acc String.length]. rewrite Hd. cbn. rewrite Hv.
    rewrite Nat2Z.inj_succ, Z.pow_succ_r by lia. split; [f_equal; lia | nia].
Qed.

Lemma digit_inj_code (x y : ascii) d e :
  Py.digit x = Some d → Py.digit y = Some e →
  d = Z.of_N (N_of_ascii x) - 48 ∧ e = Z.of_N (N_of_ascii y) - 48.
Proof.
  unfold Py.digit. destruct (_ && _); [| done]. destruct (_ && _); [| done].
  by intros [= <-] [= <-].
Qed.

Lemma str_le_digits_acc (a b : string) (acc : Z) :
  all_digits a = true → all_digits b = true →
  String.length a = String.length b →
  Py.str_le a b = true →
  ∃ na nb, Py.digits_acc acc a = Some na ∧ Py.digits_acc acc b = Some nb
           ∧ na ≤ nb.
Proof.
  revert b acc.
  induction a as [| x a IH]; intros [| y b] acc Ha Hb Hlen Hle; try done.
  { exists acc, acc. by cbn. }
  cbn in Ha, Hb.
  apply andb_prop in Ha as [[d Hd]%bool_decide_eq_true Ha].
  apply andb_prop in Hb as [[e He]%bool_decide_eq_true Hb].
  injection Hlen as Hlen. cbn [Py.digits_acc]. rewrite Hd, He. cbn [mbind option_bind].
  destruct (digit_inj_code _ _ _ _ Hd He) as [Hdx Hey].
  cbn [Py.str_le] in Hle.
  destruct (N.ltb_spec (N_of_ascii x) (N_of_ascii y)) as [Hxy | Hxy].
  - destruct (digits_acc_value a (acc * 10 + d) Ha) as (va & -> & Hva).
    destruct (digits_acc_value b (acc * 10 + e) Hb) as (vb & -> & Hvb).
    eexists _, _. split; [done |]. split; [done |]. rewrite <- Hlen in *. nia.
  - destruct (N.ltb_spec (N_of_ascii y) (N_of_ascii x)) as [Hyx | Hyx]; [done |].
    assert (d = e) as -> by lia. by apply IH.
Qed.

(** Digit strings of one length are ordered as their numbers. *)
Lemma str_le_number (a b : string) :
  all_digits a = true → all_digits b = true →
  String.length a = String.length b →
  Py.str_le a b = true → year_number a ≤ year_number b.
Proof.
  intros Ha Hb Hlen Hle. unfold year_number.
  by destruct (str_le_digits_acc a b 0 Ha Hb Hlen Hle) as (na & nb & -> & -> & ?).
Qed.

Lemma Sorted_map_inv {A B} (f : A → B) (P : A → Prop)
    (R1 : relation A) (R2 : relation B) (l : list A) :
  (∀ x y, P x → P y → R2 (f x) (f y) → R1 x y) →
  Forall P l → Sorted R2 (map f l) → Sorted R1 l.
Proof.
  intros HR. induction l as [| x l IH]; intros HP Hs; [constructor |].
  apply Forall_cons in HP as [Hx HP]. cbn in Hs. apply Sorted_inv in Hs as [Hs Hhd].
  constructor; [by apply IH |].
  destruct l as [| y l]; [constructor |]. apply Forall_cons in HP as [Hy _].
  cbn in Hhd. apply HdRel_inv in Hhd. constructor. by apply HR.
Qed.

(** Sorted digit names of one length are in the order of their numbers. *)
Lemma sorted_years_numeric (ys : list string) (n : nat) :
  Forall (λ y, all_digits y = true) ys →
  Forall (λ y, String.length y = n) ys →
  Sorted str_le ys →
  Sorted (λ a b, year_number a ≤ year_number b) ys.
Proof.
  intros Hdig Hlen Hsorted.
  induction Hsorted as [| y ys Hs IH Hhd]; [constructor |].
  apply Forall_cons in Hdig as [Hy Hdig]. apply Forall_cons in Hlen as [Hly Hlen].
  constructor; [by apply IH |].
  destruct Hhd as [| z ys Hyz]; constructor.
  apply Forall_cons in Hdig as [Hz _]. apply Forall_cons in Hlen as [Hlz _].
  apply str_le_number; [done | done | congruence | done].
Qed.

Lemma str_le_trans (a b c : string) :
  Py.str_le a b = true → Py.str_le b c = true → Py.str_le a c = true.
Proof.
  revert b c. induction a as [| x a IH]; intros [| y b] [| z c]; cbn; try done.
  destruct (N.ltb_spec (N_of_ascii x) (N_of_ascii y));
    destruct (N.ltb_spec (N_of_ascii y) (N_of_ascii x));
    destruct (N.ltb_spec (N_of_ascii y) (N_of_ascii z));
    destruct (N.ltb_spec (N_of_ascii z) (N_of_ascii y));
    destruct (N.ltb_spec (N_of_ascii x) (N_of_ascii z));
    destruct (N.ltb_spec (N_of_ascii z) (N_of_ascii x));
    try done; try lia. apply IH.
Qed.

Lemma N_of_ascii_inj (x y : ascii) : N_of_ascii x = N_of_ascii y → x = y.
Proof.
  intros H. rewrite <- (ascii_N_embedding x), <- (ascii_N_embedding y).
  by rewrite H.
Qed.

Lemma str_le_antisym (a b : string) :
  Py.str_le a b = true → Py.str_le b a = true → a = b.
Proof.
  revert b. induction a as [| x a IH]; intros [| y b]; cbn; try done.
  destruct (N.ltb_spec (N_of_ascii x) (N_of_ascii y));
    destruct (N.ltb_spec (N_of_ascii y) (N_of_ascii x));
    try done; try lia.
  intros H1 H2. f_equal; [apply N_of_ascii_inj; lia | by apply IH].
Qed.

#[global] Instance str_le_Transitive : Transitive str_le.
Proof. intros a b c. apply str_le_trans. Qed.

#[global] Instance str_le_AntiSymm : AntiSymm (=) str_le.
Proof. intros a b. apply str_le_antisym. Qed.

(** [list.sort] gives the one sorted arrangement of its elements, whatever
    order they come in. *)
Lemma py_sort_perm (l l' : list string) : l ≡ₚ l' → py_sort l = py_sort l'.
Proof.
  intros Hp. unfold py_sort.
  apply (Sorted_unique str_le); [apply Sorted_merge_sort, _ .. |].
  by rewrite !merge_sort_Permutation.
Qed.

(** ** catdata *)

Lemma mapM_agree {A B} (f g : A → option B) (l : list A) :
  (∀ x, x ∈ l → f x = g x) → mapM f l = mapM g l.
Proof.
  induction l as [| x l IH]; intros H; [done |].
  cbn. rewrite (H x) by left. rewrite IH; [done |].
  intros y Hy. apply H. by right.
Qed.

Lemma ncks_cases nco i o w :
  (∃ c c', nc_contents (files w) i = Some c
           ∧ nco_mk_rec_dmn nco c = Some c'
           ∧ ncks nco i o w
             = (World (<[o := NcFile c']> (files w)) (stdout w), Ok tt))
  ∨ ncks nco i o w = (w, Raise NCOException).
Proof.
  unfold ncks, get_files, put_file, lift, mbind, M_bind.
  destruct (nc_contents (files w) i) as [c |] eqn:Hc; cbn; [| by right].
  destruct (nco_mk_rec_dmn nco c) as [c' |] eqn:Hc'; cbn; [| by right].
  left. by exists c, c'.
Qed.

Lemma ncrcat_cases nco input o w :
  (∃ cs c', mapM (nc_contents (files w)) input = Some cs
            ∧ nco_concat nco (files w !! o) cs = Some c'
            ∧ ncrcat nco input o w
              = (World (<[o := NcFile c']> (files w)) (stdout w), Ok tt))
  ∨ ncrcat nco input o w = (w, Raise NCOException).
Proof.
  unfold ncrcat, get_files, put_file, lift, mbind, M_bind.
  destruct (mapM (nc_contents (files w)) input) as [cs |] eqn:Hcs; cbn;
    [| by right].
  destruct (nco_concat nco (files w !! o) cs) as [c' |] eqn:Hc'; cbn;
    [| by right].
  left. by exists cs, c'.
Qed.

Lemma os_makedirs_keeps path w w' r p :
  os_makedirs path w = (w', r) →
  is_Some (files w !! p) → is_Some (files w' !! p).
Proof.
  unfold os_makedirs. destruct (String.eqb path "").
  { by intros [= <- <-]. }
  intros [= <- <-] Hp. cbn [files].
  induction (ancestors (String.length path) path) as [| q qs IH]; cbn; [done |].
  destruct (Fs.exists_ _ q); [done |].
  destruct (decide (q = p)) as [-> |].
  - rewrite lookup_insert_eq. eauto.
  - by rewrite lookup_insert_ne.
Qed.

Lemma os_remove_result p w : (os_remove p w).2 ≠ Raise NCOException.
Proof. unfold os_remove. by destruct (files w !! p) as [[] |]. Qed.

Lemma for_remove_result l w :
  (for_ l (λ file _, os_remove file) tt w).2 ≠ Raise NCOException.
Proof.
  revert w. induction l as [| p l IH]; intros w; [done |].
  cbn [for_]. unfold mbind, M_bind at 1.
  pose proof (os_remove_result p w) as Hr.
  destruct (os_remove p w) as [w1 [[] | e]]; [apply IH | done].
Qed.

Lemma catdata_cons nco c0 rest outfil w :
  catdata nco (c0 :: rest) outfil w =
    (_ ← ncks nco c0 (Py.drop_last 3 c0 +:+ "_recdim.nc");
     ex ← path_exists (Py.os_path_split (outfil +:+ ".nc")).1;
     _ ← (if ex : bool then mret tt
          else os_makedirs (Py.os_path_split (outfil +:+ ".nc")).1);
     _ ← ncrcat nco ((Py.drop_last 3 c0 +:+ "_recdim.nc") :: rest)
           (outfil +:+ ".nc");
     for_ (c0 :: (Py.drop_last 3 c0 +:+ "_recdim.nc") :: rest)
          (λ file _, os_remove file) tt) w.
Proof. reflexivity. Qed.

(** C9.  [NCOException] is raised by the two external operations only.
    When [catdata] ends with it, every path that existed before the call
    still exists: no input has been removed. *)
Theorem catdata_nco_failure_keeps_files nco catlist outfil w w' :
  catdata nco catlist outfil w = (w', Raise NCOException) →
  ∀ p, is_Some (files w !! p) → is_Some (files w' !! p).
Proof.
  intros H p Hp. destruct catlist as [| c0 rest]; [discriminate H |].
  rewrite catdata_cons in H. unfold mbind, M_bind at 1 in H.
  destruct (ncks_cases nco c0 (Py.drop_last 3 c0 +:+ "_recdim.nc") w)
    as [(c & c' & _ & _ & E) | E]; rewrite E in H;
    [| by injection H as <-].
  set (w1 := World _ _) in H.
  assert (is_Some (files w1 !! p)) as Hp1.
  { cbn. destruct (decide (Py.drop_last 3 c0 +:+ "_recdim.nc" = p)) as [-> |].
    - rewrite lookup_insert_eq. eauto.
    - by rewrite lookup_insert_ne. }
  clearbody w1. clear E Hp.
  unfold mbind, M_bind at 1 in H. unfold path_exists at 1 in H.
  unfold mbind, M_bind at 1 in H.
  destruct ((if Fs.exists_ (dom (files w1)) (Py.os_path_split (outfil +:+ ".nc")).1
             then mret tt
             else os_makedirs (Py.os_path_split (outfil +:+ ".nc")).1) w1)
    as [w2 [[] | e]] eqn:E2.
  2:{ destruct (Fs.exists_ _ _); [discriminate E2 |].
      unfold os_makedirs in E2. destruct (String.eqb _ ""); [| discriminate E2].
      injection E2 as <- <-. by injection H as <-. }
  assert (is_Some (files w2 !! p)) as Hp2.
  { destruct (Fs.exists_ _ _).
    - by injection E2 as <-.
    - by eapply os_makedirs_keeps. }
  clear E2. unfold mbind, M_bind at 1 in H.
  destruct (ncrcat_cases nco ((Py.drop_last 3 c0 +:+ "_recdim.nc") :: rest)
              (outfil +:+ ".nc") w2) as [(cs & c2 & _ & _ & E) | E];
    rewrite E in H; [| by injection H as <-].
  exfalso. eapply for_remove_result. by rewrite H.
Qed.

Lemma catdata_nco_failure_keeps_files_witness :
  is_Some (files (catdata nco_failing ["/out/m_1980.nc"; "/out/m_1981.nc"]
                    "/out/m" two_year_world).1 !! "/out/m_1981.nc").
Proof.
  apply (catdata_nco_failure_keeps_files nco_failing
           ["/out/m_1980.nc"; "/out/m_1981.nc"] "/out/m" two_year_world).
  - by vm_compute.
  - vm_compute. eauto.
Defined.

Lemma ncks_eq nco i o w :
  ncks nco i o w =
    match nc_contents (files w) i ≫= nco_mk_rec_dmn nco with
    | Some c' => (World (<[o := NcFile c']> (files w)) (stdout w), Ok tt)
    | None => (w, Raise NCOException)
    end.
Proof.
  unfold ncks, get_files, put_file, lift, mbind at 1 2 3, M_bind.
  destruct (nc_contents (files w) i) as [c |]; cbn; [| done].
  by destruct (nco_mk_rec_dmn nco c).
Qed.

Lemma ncrcat_eq nco input o w :
  ncrcat nco input o w =
    match mapM (nc_contents (files w)) input
          ≫= nco_concat nco (files w !! o) with
    | Some c' => (World (<[o := NcFile c']> (files w)) (stdout w), Ok tt)
    | None => (w, Raise NCOException)
    end.
Proof.
  unfold ncrcat, get_files, put_file, lift, mbind at 1 2 3, M_bind.
  destruct (mapM (nc_contents (files w)) input) as [cs |]; cbn; [| done].
  by destruct (nco_concat nco (files w !! o) cs).
Qed.

Lemma is_Some_insert {V} (m : gmap string V) p q v :
  is_Some (m !! p) → is_Some (<[q := v]> m !! p).
Proof.
  intros H. destruct (decide (q = p)) as [-> |].
  - rewrite lookup_insert_eq. eauto.
  - by rewrite lookup_insert_ne.
Qed.

Lemma exists_is_Some {V} (m : gmap string V) p :
  Fs.exists_ (dom m) p = true ↔ is_Some (m !! p).
Proof. rewrite exists_true. apply elem_of_dom. Qed.

Lemma nc_contents_Some fs p c :
  nc_contents fs p = Some c ↔ fs !! p = Some (NcFile c).
Proof.
  unfold nc_contents. destruct (fs !! p) as [[] |]; split; congruence.
Qed.

(** [catdata] in an existing output directory, step by step. *)
Lemma catdata_steps nco c0 rest outfil w :
  is_Some (files w !! (Py.os_path_split (outfil +:+ ".nc")).1) →
  catdata nco (c0 :: rest) outfil w =
    match nc_contents (files w) c0 ≫= nco_mk_rec_dmn nco with
    | None => (w, Raise NCOException)
    | Some c' =>
        let recdim := Py.drop_last 3 c0 +:+ "_recdim.nc" in
        let fs1 := <[recdim := NcFile c']> (files w) in
        match mapM (nc_contents fs1) (recdim :: rest)
              ≫= nco_concat nco (fs1 !! (outfil +:+ ".nc")) with
        | None => (World fs1 (stdout w), Raise NCOException)
        | Some m =>
            for_ (c0 :: recdim :: rest) (λ file _, os_remove file) tt
              (World (<[outfil +:+ ".nc" := NcFile m]> fs1) (stdout w))
        end
    end.
Proof.
  intros Hdir. rewrite catdata_cons. unfold mbind at 1, M_bind at 1.
  rewrite ncks_eq. destruct (nc_contents (files w) c0 ≫= nco_mk_rec_dmn nco)
    as [c' |]; [| done].
  unfold mbind at 1, M_bind at 1, path_exists. cbn [files stdout].
  assert (Fs.exists_ (dom (<[Py.drop_last 3 c0 +:+ "_recdim.nc" := NcFile c']>
                             (files w)))
            (Py.os_path_split (outfil +:+ ".nc")).1 = true) as ->.
  { apply exists_is_Some. by apply is_Some_insert. }
  unfold mbind at 1, M_bind at 1, mret at 1, M_ret at 1.
  unfold mbind at 1, M_bind at 1. rewrite ncrcat_eq. cbn [files stdout].
  cbv zeta. by destruct (mapM _ _ ≫= nco_concat nco _).
Qed.

(** Removing distinct containers succeeds and removes exactly them. *)
Lemma for_remove_Ok l fs out :
  NoDup l →
  (∀ p, p ∈ l → ∃ c, fs !! p = Some (NcFile c)) →
  ∃ fs', for_ l (λ file _, os_remove file) tt (World fs out)
         = (World fs' out, Ok tt)
         ∧ ∀ q, fs' !! q = if decide (q ∈ l) then None else fs !! q.
Proof.
  revert fs. induction l as [| p l IH]; intros fs Hnd Hl.
  { exists fs. split; [done |]. intros q. rewrite decide_False; [done |].
    apply not_elem_of_nil. }
  apply NoDup_cons in Hnd as [Hp Hnd].
  destruct (Hl p) as [c Hc]; [by left |].
  destruct (IH (delete p fs) Hnd) as (fs' & Hrun & Hfs').
  { intros q Hq. destruct (Hl q) as [c' Hc']; [by right |]. exists c'.
    rewrite lookup_delete_ne; [done |]. by intros ->. }
  exists fs'. split.
  - cbn [for_]. unfold mbind, M_bind at 1, os_remove at 1. cbn [files stdout].
    by rewrite Hc.
  - intros q. rewrite Hfs'. destruct (decide (q = p)) as [-> |].
    + rewrite (decide_True (P := p ∈ p :: l)) by left.
      destruct (decide (p ∈ l)); [done |]. apply lookup_delete_eq.
    + rewrite lookup_delete_ne by done.
      destruct (decide (q ∈ l)).
      * by rewrite decide_True by (by right).
      * rewrite decide_False; [done |]. by rewrite not_elem_of_cons.
Qed.

(** C4, amended.  [catdata] makes no check of the final path: the path is
    handed to the external concatenation whether or not a file lies
    there.  For distinct input containers in an existing output
    directory, with the final path apart from the inputs and from the
    scratch file, the concatenation alone decides the outcome.  When it
    succeeds on the record-dimension copy of the first input followed by
    the other inputs, [catdata] returns normally: the final path holds
    the result, in place of whatever lay there, and the inputs and the
    scratch file are gone.  When it fails, [catdata] raises
    [NCOException] and removes nothing. *)
Theorem catdata_final_path_unchecked nco c0 rest outfil w x0 x0' xs :
  is_Some (files w !! (Py.os_path_split (outfil +:+ ".nc")).1) →
  NoDup ((outfil +:+ ".nc") :: c0
           :: (Py.drop_last 3 c0 +:+ "_recdim.nc") :: rest) →
  nc_contents (files w) c0 = Some x0 →
  nco_mk_rec_dmn nco x0 = Some x0' →
  mapM (nc_contents (files w)) rest = Some xs →
  match nco_concat nco (files w !! (outfil +:+ ".nc")) (x0' :: xs) with
  | Some merged =>
      ∃ w', catdata nco (c0 :: rest) outfil w = (w', Ok tt)
            ∧ files w' !! (outfil +:+ ".nc") = Some (NcFile merged)
            ∧ (∀ p, p ∈ c0 :: (Py.drop_last 3 c0 +:+ "_recdim.nc") :: rest →
                    files w' !! p = None)
            ∧ (∀ p, p ∉ (outfil +:+ ".nc") :: c0
                          :: (Py.drop_last 3 c0 +:+ "_recdim.nc") :: rest →
                    files w' !! p = files w !! p)
  | None =>
      catdata nco (c0 :: rest) outfil w
      = (World (<[Py.drop_last 3 c0 +:+ "_recdim.nc" := NcFile x0']> (files w))
               (stdout w),
         Raise NCOException)
  end.
Proof.
  intros Hdir Hnd Hc0 Hrec Hrest.
  pose proof Hnd as Hnd0.
  apply NoDup_cons in Hnd as [Hfin Hnd]. pose proof Hnd as Hnd1.
  apply NoDup_cons in Hnd as [Hc0n Hnd]. apply NoDup_cons in Hnd as [Hrn _].
  apply not_elem_of_cons in Hfin as [Hfc Hfin].
  apply not_elem_of_cons in Hfin as [Hfr Hfin].
  apply not_elem_of_cons in Hc0n as [Hcr Hc0n].
  rewrite catdata_steps by done. rewrite Hc0. cbn [mbind option_bind].
  rewrite Hrec. cbv zeta.
  assert (mapM (nc_contents (<[Py.drop_last 3 c0 +:+ "_recdim.nc" := NcFile x0']>
                               (files w)))
               ((Py.drop_last 3 c0 +:+ "_recdim.nc") :: rest)
          = Some (x0' :: xs)) as ->.
  { cbn [mapM].
    rewrite (proj2 (nc_contents_Some _ _ x0')) by apply lookup_insert_eq.
    cbn [mbind option_bind].
    rewrite (mapM_agree _ (nc_contents (files w))).
    - by rewrite Hrest.
    - intros x Hx. unfold nc_contents. rewrite lookup_insert_ne; [done |].
      by intros <-. }
  cbn [mbind option_bind]. rewrite lookup_insert_ne by done.
  destruct (nco_concat nco (files w !! (outfil +:+ ".nc")) (x0' :: xs))
    as [merged |]; [| done].
  destruct (for_remove_Ok
              (c0 :: (Py.drop_last 3 c0 +:+ "_recdim.nc") :: rest)
              (<[outfil +:+ ".nc" := NcFile merged]>
                 (<[Py.drop_last 3 c0 +:+ "_recdim.nc" := NcFile x0']> (files w)))
              (stdout w) Hnd1) as (fs' & Hrun & Hfs').
  { intros p Hp. apply elem_of_cons in Hp as [-> | Hp].
    - exists x0. rewrite !lookup_insert_ne by done.
      by apply nc_contents_Some.
    - apply elem_of_cons in Hp as [-> | Hp].
      + exists x0'. rewrite lookup_insert_ne by done. apply lookup_insert_eq.
      + assert (outfil +:+ ".nc" ≠ p) by (by intros <-).
        assert (Py.drop_last 3 c0 +:+ "_recdim.nc" ≠ p) by (by intros <-).
        apply mapM_Some_1 in Hrest.
        apply list_elem_of_lookup in Hp as [i Hi].
        destruct (Forall2_lookup_l _ _ _ _ _ Hrest Hi) as (c & _ & Hc).
        exists c. rewrite !lookup_insert_ne by done.
        by apply nc_contents_Some. }
  exists (World fs' (stdout w)). split; [done |]. cbn [files]. split; [| split].
  - rewrite Hfs', decide_False; [apply lookup_insert_eq |].
    rewrite !not_elem_of_cons. by repeat split.
  - intros p Hp. by rewrite Hfs', decide_True.
  - intros p Hp. apply not_elem_of_cons in Hp as [Hpf Hp].
    rewrite Hfs', decide_False by done.
    apply not_elem_of_cons in Hp as [_ Hp].
    apply not_elem_of_cons in Hp as [Hpr _].
    by rewrite !lookup_insert_ne.
Qed.

Lemma catdata_final_path_unchecked_witness :
  ∃ w', catdata nco_example ["/out/m_1980.nc"; "/out/m_1981.nc"] "/out/m"
          (with_file "/out/m.nc" (NcFile []) two_year_world) = (w', Ok tt)
        ∧ files w' !! "/out/m.nc"
          = Some (NcFile [year_cube (1980 # 1); year_cube (1981 # 1)])
        ∧ (∀ p, p ∈ ["/out/m_1980.nc"; "/out/m_1980_recdim.nc";
                     "/out/m_1981.nc"] → files w' !! p = None)
        ∧ (∀ p, p ∉ ["/out/m.nc"; "/out/m_1980.nc"; "/out/m_1980_recdim.nc";
                     "/out/m_1981.nc"] →
                files w' !! p
                = files (with_file "/out/m.nc" (NcFile []) two_year_world) !! p).
Proof.
  refine (catdata_final_path_unchecked nco_example
            "/out/m_1980.nc" ["/out/m_1981.nc"] "/out/m"
            (with_file "/out/m.nc" (NcFile []) two_year_world)
            [year_cube (1980 # 1)] [year_cube (1980 # 1)]
            [[year_cube (1981 # 1)]] _ _ _ _ _).
  - vm_compute. eauto.
  - apply (bool_decide_unpack _). by vm_compute.
  - by vm_compute.
  - done.
  - by vm_compute.
Defined.

Lemma catdata_overwrites_final_counterexample :
  files (with_file "/out/m.nc" (NcFile []) two_year_world) !! "/out/m.nc"
    = Some (NcFile [])
  ∧ (catdata nco_example ["/out/m_1980.nc"; "/out/m_1981.nc"] "/out/m"
       (with_file "/out/m.nc" (NcFile []) two_year_world)).2 = Ok tt
  ∧ files (catdata nco_example ["/out/m_1980.nc"; "/out/m_1981.nc"] "/out/m"
             (with_file "/out/m.nc" (NcFile []) two_year_world)).1
      !! "/out/m.nc"
    = Some (NcFile [year_cube (1980 # 1); year_cube (1981 # 1)]).
Proof. split; [by vm_compute |]. split; by vm_compute. Qed.

(** ** Computations that only print *)

Lemma bind_Raise_inv {A B} (m : M A) (k : A → M B) w w' e :
  (m ≫= k) w = (w', Raise e) →
  m w = (w', Raise e) ∨ ∃ w1 a, m w = (w1, Ok a) ∧ k a w1 = (w', Raise e).
Proof.
  unfold mbind, M_bind. destruct (m w) as [w1 [a | e']]; [eauto |].
  intros [= <- <-]. by left.
Qed.

Lemma world_eta w : World (files w) (stdout w ++ []) = w.
Proof. destruct w. cbn. by rewrite app_nil_r. Qed.

Lemma prints_only_lift {A} (r : result A) : prints_only (lift r).
Proof. exists [], r. intros w. unfold lift. by rewrite world_eta. Qed.

Lemma prints_only_ret {A} (a : A) : prints_only (mret a).
Proof. apply (prints_only_lift (Ok a)). Qed.

Lemma prints_only_raise {A} e : prints_only (raise (A := A) e).
Proof. apply (prints_only_lift (Raise e)). Qed.

Lemma prints_only_print s : prints_only (print s).
Proof. by exists [s], (Ok tt). Qed.

Lemma prints_only_bind {A B} (m : M A) (k : A → M B) :
  prints_only m → (∀ a, prints_only (k a)) → prints_only (m ≫= k).
Proof.
  intros (ms & r & Hm) Hk. destruct r as [a | e].
  - destruct (Hk a) as (ms' & r' & Hk'). exists (ms ++ ms'), r'. intros w.
    unfold mbind, M_bind. rewrite Hm, Hk'. cbn. by rewrite app_assoc.
  - exists ms, (Raise e). intros w. unfold mbind, M_bind. by rewrite Hm.
Qed.

Lemma prints_only_for {A S} (l : list A) (body : A → S → M S) s :
  (∀ x s, prints_only (body x s)) → prints_only (for_ l body s).
Proof.
  intros Hb. revert s. induction l as [| x l IH]; intros s; cbn [for_].
  - apply prints_only_ret.
  - apply prints_only_bind; [apply Hb | apply IH].
Qed.

Lemma prints_only_keeps {A} q (m : M A) : prints_only m → keeps q m.
Proof. intros (ms & r & Hm) w. by rewrite Hm. Qed.

Lemma prints_only_result {A} (m : M A) w1 w2 :
  prints_only m → (m w1).2 = (m w2).2.
Proof. intros (ms & r & Hm). by rewrite !Hm. Qed.

Ltac prints_only_step :=
  lazymatch goal with
  | |- prints_only (lift _) => apply prints_only_lift
  | |- prints_only (mret _) => apply prints_only_ret
  | |- prints_only (raise _) => apply prints_only_raise
  | |- prints_only (print _) => apply prints_only_print
  | |- prints_only (if ?b then _ else _) => destruct b
  | |- prints_only (mbind _ _) => apply prints_only_bind; [| intros ?]
  | |- prints_only (let _ := _ in _) => cbv zeta
  end.

(** [readascii] only prints. *)
Lemma readascii_prints_only tree path dv : prints_only (readascii tree path dv).
Proof. unfold readascii. repeat prints_only_step. Qed.

Lemma read_csv_Raise tree path e : read_csv tree path = Raise e → e = FileError.
Proof. unfold read_csv. destruct (find_in_dirs _ _ _) as [[] |]; congruence. Qed.

(** A table that cannot be read makes [readascii] raise [FileError],
    before anything is printed. *)
Lemma readascii_unreadable tree path dv w e :
  read_csv tree path = Raise e →
  readascii tree path dv w = (w, Raise FileError).
Proof.
  intros H. pose proof (read_csv_Raise _ _ _ H) as ->.
  unfold readascii, mbind, M_bind, lift. by rewrite H.
Qed.

(** ** outcube *)

Lemma list_ascii_app (s t : string) :
  String.list_ascii_of_string (s +:+ t)
  = String.list_ascii_of_string s ++ String.list_ascii_of_string t.
Proof.
  induction s as [| x s IH]; [done |]. rewrite string_app_cons. cbn. by rewrite IH.
Qed.

Lemma list_ascii_length (s : string) :
  length (String.list_ascii_of_string s) = String.length s.
Proof. induction s as [| x s IH]; [done |]. cbn. by rewrite IH. Qed.

(** [(s + t)[:-len(t)] == s] *)
Lemma drop_last_app (s t : string) :
  Py.drop_last (String.length t) (s +:+ t) = s.
Proof.
  unfold Py.drop_last. rewrite string_length_app, list_ascii_app.
  rewrite take_app_length'.
  - apply String.string_of_list_ascii_of_string.
  - rewrite list_ascii_length. lia.
Qed.

Lemma outnm_drop_last outfil yr :
  Py.drop_last 3 (outnm outfil yr) = outfil +:+ "_" +:+ yr.
Proof.
  unfold outnm.
  replace (outfil +:+ "_" +:+ yr +:+ ".nc")
    with ((outfil +:+ "_" +:+ yr) +:+ ".nc")
    by (by rewrite !string_app_assoc).
  apply (drop_last_app _ ".nc").
Qed.

(** The final path is neither a year path nor one of its numbered
    variants. *)
Lemma final_ne_outnm outfil yr : outfil +:+ ".nc" ≠ outnm outfil yr.
Proof. unfold outnm. intros H%string_app_inj_l. discriminate H. Qed.

Lemma final_ne_variant outfil yr i :
  outfil +:+ ".nc"
  ≠ fmt (Pattern (Py.drop_last 3 (outnm outfil yr) +:+ "_") ".nc") i.
Proof.
  unfold fmt. cbn [pat_pre pat_post]. rewrite outnm_drop_last.
  rewrite !string_app_assoc. intros H%string_app_inj_l. discriminate H.
Qed.

Lemma no_percent_app (a b : string) :
  no_percent (a +:+ b) = no_percent a && no_percent b.
Proof.
  induction a as [| c a IH]; [done |]. rewrite string_app_cons. cbn.
  by rewrite IH, andb_assoc.
Qed.

Lemma outnm_stem_plain outfil yr :
  no_percent outfil = true → no_percent yr = true →
  no_percent (Py.drop_last 3 (outnm outfil yr)) = true.
Proof.
  intros Ho Hy. by rewrite outnm_drop_last, !no_percent_app, Ho, Hy.
Qed.

Lemma fmt_scan_text (lit s : string) (k : bool) :
  no_percent s = true →
  Py.fmt_scan (Py.FmtState lit k Py.FText) s
  = Ok (Py.FmtState (lit +:+ s) k Py.FText).
Proof.
  revert lit. induction s as [| c s IH]; intros lit Hs.
  { cbn. by rewrite string_app_nil_r. }
  cbn in Hs. apply andb_prop in Hs as [Hc Hs].
  cbn [Py.fmt_scan]. unfold Py.fmt_step. cbn [Py.fs_stage].
  destruct (Ascii.eqb c "%"); [done |]. cbn [mbind result_bind].
  unfold Py.emit. cbn [Py.fs_lit Py.fs_arg]. rewrite IH by done.
  by rewrite string_app_assoc.
Qed.

(** A stem without [%] is copied, and the [%s] takes the argument. *)
Lemma percent_pattern_plain (stem : string) :
  no_percent stem = true →
  Py.percent_pattern stem = Ok (stem +:+ "_", ".nc").
Proof.
  intros H. unfold Py.percent_pattern. by rewrite fmt_scan_text.
Qed.

Lemma nextPath_fmt fs pat p : nextPath fs pat = Some p → ∃ i, p = fmt pat i.
Proof.
  unfold nextPath. destruct (exp_search _ _ _ _) as [i |]; [| done].
  cbn. intros [= <-]. eauto.
Qed.

Lemma bin_search_free fuel fs pat a b :
  fmt pat b ∉ fs → fmt pat (bin_search fuel fs pat a b) ∉ fs.
Proof.
  revert a b. induction fuel as [| fuel IH]; intros a b Hb; [done |].
  simpl. destruct (a + 1 <? b); [| done].
  destruct (Fs.exists_ fs (fmt pat ((a + b) `div` 2))) eqn:E.
  - by apply IH.
  - apply IH. by apply exists_false.
Qed.

(** Whatever exists, the path [nextPath] returns is free. *)
Lemma nextPath_free fs pat p : nextPath fs pat = Some p → p ∉ fs.
Proof.
  unfold nextPath. destruct (exp_search _ _ _ _) as [i |] eqn:E; [| done].
  cbn. intros [= <-]. apply bin_search_free.
  by destruct (exp_search_Some _ _ _ 1 _ ltac:(lia) E) as (_ & H & _).
Qed.

(** The directory of a path does not depend on what follows its last
    [/]. *)
Lemma no_slash_app (a b : string) :
  no_slash (a +:+ b) = no_slash a && no_slash b.
Proof.
  induction a as [| c a IH]; [done |]. rewrite string_app_cons. cbn.
  by rewrite IH, andb_assoc.
Qed.

Lemma no_slash_chars (s : string) :
  no_slash s = true →
  Forall (λ a, Ascii.eqb a "/" = false) (String.list_ascii_of_string s).
Proof.
  induction s as [| c s IH]; intros H; [by constructor |].
  cbn in H. apply andb_prop in H as [Hc Hs]. cbn. constructor; [| by apply IH].
  by apply negb_true_iff.
Qed.

Lemma rsplit_slash_app (r1 r2 : list ascii) :
  Forall (λ a, Ascii.eqb a "/" = false) r1 →
  (Py.rsplit_slash (r1 ++ r2)).2 = (Py.rsplit_slash r2).2.
Proof.
  induction 1 as [| a r1 Ha _ IH]; [done |].
  cbn [app Py.rsplit_slash]. rewrite Ha.
  by destruct (Py.rsplit_slash (r1 ++ r2)).
Qed.

Lemma dirname_suffix (x t t' : string) :
  no_slash t = true → no_slash t' = true →
  (Py.os_path_split (x +:+ t)).1 = (Py.os_path_split (x +:+ t')).1.
Proof.
  intros Ht Ht'. unfold Py.os_path_split.
  rewrite !list_ascii_app, !reverse_app.
  pose proof (rsplit_slash_app (reverse (String.list_ascii_of_string t))
                (reverse (String.list_ascii_of_string x))) as H.
  pose proof (rsplit_slash_app (reverse (String.list_ascii_of_string t'))
                (reverse (String.list_ascii_of_string x))) as H'.
  destruct (Py.rsplit_slash (reverse (String.list_ascii_of_string t) ++ _))
    as [t1 h1].
  destruct (Py.rsplit_slash (reverse (String.list_ascii_of_string t') ++ _))
    as [t2 h2].
  cbn [snd fst] in *.
  rewrite H by (by apply Forall_reverse, no_slash_chars).
  by rewrite H' by (by apply Forall_reverse, no_slash_chars).
Qed.

Lemma dir_ready_suffix fs (x t t' : string) :
  no_slash t = true → no_slash t' = true →
  dir_ready fs (x +:+ t) = dir_ready fs (x +:+ t').
Proof.
  intros Ht Ht'. unfold dir_ready. by rewrite (dirname_suffix x t t').
Qed.

Lemma no_slash_pretty_N_go (x : N) (s : string) :
  no_slash s = true → no_slash (pretty_N_go x s) = true.
Proof.
  revert s. induction (N.lt_wf_0 x) as [x _ IH]; intros s Hs.
  assert (x = 0 ∨ 0 < x)%N as [-> | ?] by lia; [by rewrite pretty_N_go_0 |].
  rewrite pretty_N_go_step by done. apply IH; [by apply N.div_lt |].
  cbn. rewrite Hs. unfold pretty_N_char. by repeat case_match.
Qed.

Lemma no_slash_pretty (i : Z) : no_slash (pretty i) = true.
Proof.
  assert (∀ p : positive, no_slash (pretty p) = true) as Hpos.
  { intros p. unfold pretty, pretty_positive, pretty, pretty_N.
    case_decide; [done |]. by apply no_slash_pretty_N_go. }
  destruct i as [| p | p]; [done | apply Hpos |].
  change (pretty (Z.neg p)) with ("-" +:+ pretty p).
  by rewrite no_slash_app, Hpos.
Qed.

Lemma outnm_stem outfil yr :
  outnm outfil yr = (outfil +:+ "_" +:+ yr) +:+ ".nc".
Proof. unfold outnm. by rewrite !string_app_assoc. Qed.

Lemma dir_ready_outnm fs outfil yr :
  no_slash yr = true →
  dir_ready fs (outnm outfil yr) = dir_ready fs (outfil +:+ ".nc").
Proof.
  intros Hyr. unfold outnm. apply dir_ready_suffix; [| done].
  by rewrite !no_slash_app, Hyr.
Qed.

Lemma dir_ready_variant fs stem i :
  dir_ready fs (fmt (Pattern (stem +:+ "_") ".nc") i)
  = dir_ready fs (stem +:+ ".nc").
Proof.
  unfold fmt. cbn [pat_pre pat_post]. rewrite string_app_assoc.
  apply dir_ready_suffix; [| done].
  by rewrite !no_slash_app, no_slash_pretty.
Qed.

(** A new file leaves the directories that are there. *)
Lemma dir_ready_insert fs p f q :
  fs !! p = None → dir_ready fs q = true →
  dir_ready (<[p := f]> fs) q = true.
Proof.
  unfold dir_ready. cbv zeta. intros Hp. destruct (String.eqb _ ""); [done |].
  destruct (fs !! (Py.os_path_split q).1) as [[] |] eqn:E; [| done | done].
  intros _. assert (p ≠ (Py.os_path_split q).1) as Hne
    by (intros ->; congruence).
  by rewrite lookup_insert_ne, E.
Qed.

Lemma final_ne_variant_stem outfil yr i :
  outfil +:+ ".nc" ≠ fmt (Pattern ((outfil +:+ "_" +:+ yr) +:+ "_") ".nc") i.
Proof.
  unfold fmt. cbn [pat_pre pat_post].
  rewrite !string_app_assoc. intros H%string_app_inj_l. discriminate H.
Qed.

Lemma bind_eq {A B} (m : M A) (k : A → M B) w :
  (m ≫= k) w = match m w with
               | (w', Ok a) => k a w'
               | (w', Raise e) => (w', Raise e)
               end.
Proof. reflexivity. Qed.

Lemma netcdf_save_fresh cube p w :
  files w !! p = None →
  netcdf_save cube p w
  = if dir_ready (files w) p then (with_file p (NcFile cube) w, Ok tt)
    else (w, Raise OSError).
Proof.
  intros Hp. unfold netcdf_save, get_files, mbind, M_bind. rewrite Hp.
  by destruct (dir_ready (files w) p).
Qed.

(** For a name without [%], [outcube] saves under the given name when
    that is free and under a free numbered variant of it otherwise; when
    the directory is not there it raises [OSError] and saves nothing. *)
Lemma outcube_cases cube stem w :
  no_percent stem = true →
  if dir_ready (files w) (stem +:+ ".nc") then
    ∃ p, outcube cube (stem +:+ ".nc") w = (with_file p (NcFile cube) w, Ok tt)
         ∧ files w !! p = None
         ∧ (p = stem +:+ ".nc"
            ∨ ∃ i, p = fmt (Pattern (stem +:+ "_") ".nc") i)
  else outcube cube (stem +:+ ".nc") w = (w, Raise OSError).
Proof.
  intros Hplain.
  assert (Py.drop_last 3 (stem +:+ ".nc") = stem) as Hstem
    by apply (drop_last_app _ ".nc").
  unfold outcube, path_exists, get_files, lift, mbind, M_bind.
  destruct (Fs.exists_ (dom (files w)) (stem +:+ ".nc")) eqn:E.
  - rewrite Hstem, (percent_pattern_plain _ Hplain). cbn [fst snd].
    destruct (nextPath_total (dom (files w)) (Pattern (stem +:+ "_") ".nc"))
      as [p Hp].
    rewrite Hp. cbn [of_option].
    pose proof (nextPath_free _ _ _ Hp) as Hfree.
    apply not_elem_of_dom in Hfree.
    destruct (nextPath_fmt _ _ _ Hp) as [i Hi].
    rewrite (netcdf_save_fresh _ _ _ Hfree).
    assert (dir_ready (files w) p = dir_ready (files w) (stem +:+ ".nc"))
      as -> by (rewrite Hi; apply dir_ready_variant).
    destruct (dir_ready _ _); [| done]. exists p. eauto.
  - apply exists_false, not_elem_of_dom in E.
    change (mret (M := M) (stem +:+ ".nc") w) with (w, Ok (stem +:+ ".nc")).
    cbv beta iota.
    rewrite (netcdf_save_fresh _ _ _ E).
    destruct (dir_ready _ _); [| done]. exists (stem +:+ ".nc"). eauto.
Qed.

(** Whatever the name, [outcube] raises only what the [%] operator raises
    on the pattern, or [OSError], and then it has saved nothing. *)
Lemma outcube_Raise cube fname w w' e :
  outcube cube fname w = (w', Raise e) →
  (Py.percent_pattern (Py.drop_last 3 fname) = Raise e ∨ e = OSError)
  ∧ w' = w.
Proof.
  assert (∀ p, netcdf_save cube p w = (w', Raise e) → e = OSError ∧ w' = w)
    as Hsave.
  { intros p. unfold netcdf_save, get_files, mbind, M_bind, put_file, raise.
    destruct (files w !! p) as [[] |]; [by intros [= <- <-] | |];
      (destruct (dir_ready _ _); [done | by intros [= <- <-]]). }
  unfold outcube, path_exists, get_files, lift, mbind, M_bind.
  destruct (Fs.exists_ (dom (files w)) fname).
  - destruct (Py.percent_pattern _) as [pp | e']; [| intros [= <- <-]; eauto].
    destruct (nextPath_total (dom (files w)) (Pattern pp.1 pp.2)) as [p Hp].
    rewrite Hp. cbn [of_option]. intros [-> ->]%Hsave. eauto.
  - change (mret (M := M) fname w) with (w, Ok fname). cbv beta iota. intros [-> ->]%Hsave. eauto.
Qed.

(** ** Loops, pools and chunks *)

Lemma for_app {A S} (l1 l2 : list A) (body : A → S → M S) s w :
  for_ (l1 ++ l2) body s w = (s' ← for_ l1 body s; for_ l2 body s') w.
Proof.
  revert s w. induction l1 as [| x l1 IH]; intros s w; [done |].
  cbn [app for_]. unfold mbind, M_bind.
  destruct (body x s w) as [w1 [s1 | e]]; [| done]. apply IH.
Qed.

Lemma for_cons_collect {A B} (f : A → M B) x l acc w :
  for_ (x :: l) (λ x yl, p ← f x; mret (yl ++ [p])) acc w
  = match f x w with
    | (w1, Ok p) => for_ l (λ x yl, p ← f x; mret (yl ++ [p])) (acc ++ [p]) w1
    | (w1, Raise e) => (w1, Raise e)
    end.
Proof. cbn [for_]. rewrite !bind_eq. by destruct (f x w) as [w1 [p | e]]. Qed.

Lemma for_cons_chunks {A B} ff (f : A → M B) chunk chunks acc w :
  for_ (chunk :: chunks)
       (λ chunk yl, ps ← pool_map ff f chunk; mret (yl ++ ps)) acc w
  = match pool_map ff f chunk w with
    | (w1, Ok ps) =>
        for_ chunks (λ chunk yl, ps ← pool_map ff f chunk; mret (yl ++ ps))
             (acc ++ ps) w1
    | (w1, Raise e) => (w1, Raise e)
    end.
Proof.
  cbn [for_]. rewrite !bind_eq.
  by destruct (pool_map ff f chunk w) as [w1 [p | e]].
Qed.

Lemma pool_map_eq {A B} ff (f : A → M B) chunk w :
  pool_map ff f chunk w
  = ((pool_run f chunk w).1, gather ff (pool_run f chunk w).2).
Proof. unfold pool_map. by destruct (pool_run f chunk w). Qed.

(** A pool call returns when no task has failed, and otherwise raises one
    of the exceptions its tasks raised. *)
Lemma gather_Ok {B} ff (rs : list (result B)) ps :
  gather ff rs = Ok ps → failures rs = [] ∧ ps = returned rs.
Proof. unfold gather. destruct (failures rs); [by intros [= <-] | done]. Qed.

Lemma gather_Raise {B} ff (rs : list (result B)) e :
  gather ff rs = Raise e → e ∈ failures rs.
Proof.
  unfold gather. destruct (failures rs) as [| e0 es]; [done |].
  intros [= <-]. apply list_elem_of_In.
  apply (nth_In (e0 :: es) e0).
  exact (Nat.mod_upper_bound _ (length (e0 :: es)) ltac:(done)).
Qed.

(** The plain loop over the tasks of a pool ends as the pool does when no
    task fails, and on the first failed task of the chunk otherwise. *)
Lemma pool_run_loop {A B} (f : A → M B) chunk acc w :
  match failures (pool_run f chunk w).2 with
  | [] =>
      for_ chunk (λ x yl, p ← f x; mret (yl ++ [p])) acc w
      = ((pool_run f chunk w).1, Ok (acc ++ returned (pool_run f chunk w).2))
  | e :: _ =>
      ∃ w'', for_ chunk (λ x yl, p ← f x; mret (yl ++ [p])) acc w
             = (w'', Raise e)
  end.
Proof.
  revert acc w. induction chunk as [| x chunk IH]; intros acc w.
  { cbn. by rewrite app_nil_r. }
  rewrite for_cons_collect. cbn [pool_run].
  destruct (f x w) as [w1 [p | e]].
  - specialize (IH (acc ++ [p]) w1).
    destruct (pool_run f chunk w1) as [w2 rs].
    cbn [fst snd failures returned] in *.
    destruct (failures rs); [| done]. by rewrite IH, <- app_assoc.
  - destruct (pool_run f chunk w1) as [w2 rs]. cbn. eauto.
Qed.

(** What a pool or a loop raises was raised by one of the tasks. *)
Lemma pool_run_failures {A B} (f : A → M B) chunk w e :
  e ∈ failures (pool_run f chunk w).2 →
  ∃ x w0, x ∈ chunk ∧ (f x w0).2 = Raise e.
Proof.
  revert w. induction chunk as [| x chunk IH]; intros w.
  { cbn. by intros ?%elem_of_nil. }
  cbn [pool_run]. destruct (f x w) as [w1 r] eqn:E.
  specialize (IH w1). destruct (pool_run f chunk w1) as [w2 rs].
  cbn [fst snd] in *. destruct r as [b | e0]; cbn [failures].
  - intros (y & w0 & Hy & H)%IH. exists y, w0. split; [by right | done].
  - intros [-> | (y & w0 & Hy & H)%IH]%elem_of_cons.
    + exists x, w. split; [by left | by rewrite E].
    + exists y, w0. split; [by right | done].
Qed.

Lemma chunks_Raise_inv {A B} ff (f : A → M B) chunks acc w w' e :
  for_ chunks (λ chunk yl, ps ← pool_map ff f chunk; mret (yl ++ ps)) acc w
  = (w', Raise e) →
  ∃ x w0, x ∈ concat chunks ∧ (f x w0).2 = Raise e.
Proof.
  revert acc w. induction chunks as [| chunk chunks IH]; intros acc w; [done |].
  rewrite for_cons_chunks, pool_map_eq. cbn [concat].
  destruct (gather ff (pool_run f chunk w).2) as [ps | e0] eqn:G.
  - intros (x & w0 & Hx & H)%IH. exists x, w0.
    split; [apply elem_of_app; by right | done].
  - intros [= _ ->]. apply gather_Raise, pool_run_failures in G
      as (x & w0 & Hx & H).
    exists x, w0. split; [apply elem_of_app; by left | done].
Qed.

Lemma loop_Raise_inv {A B} (f : A → M B) l acc w w' e :
  for_ l (λ x yl, p ← f x; mret (yl ++ [p])) acc w = (w', Raise e) →
  ∃ x w0, x ∈ l ∧ (f x w0).2 = Raise e.
Proof.
  revert acc w. induction l as [| x l IH]; intros acc w; [done |].
  rewrite for_cons_collect. destruct (f x w) as [w1 [p | e0]] eqn:E.
  - intros (y & w0 & Hy & H)%IH. exists y, w0. split; [by right | done].
  - intros [= _ ->]. exists x, w. split; [by left | by rewrite E].
Qed.

(** A pool and the plain loop over the same tasks: the same results in the
    same world when every task succeeds; when the pool raises, so does the
    loop. *)
Lemma pool_vs_loop {A B} ff (f : A → M B) chunk acc w :
  match pool_map ff f chunk w with
  | (w', Ok ps) =>
      for_ chunk (λ x yl, p ← f x; mret (yl ++ [p])) acc w
      = (w', Ok (acc ++ ps))
  | (_, Raise _) =>
      ∃ w'' e', for_ chunk (λ x yl, p ← f x; mret (yl ++ [p])) acc w
                = (w'', Raise e')
  end.
Proof.
  pose proof (pool_run_loop f chunk acc w) as H.
  rewrite pool_map_eq. unfold gather.
  destruct (pool_run f chunk w) as [w' rs]. cbn [fst snd] in *.
  destruct (failures rs); [done |]. destruct H as [w'' H]. eauto.
Qed.

Lemma chunks_vs_loop {A B} ff (f : A → M B) chunks acc w :
  match for_ chunks (λ chunk yl, ps ← pool_map ff f chunk; mret (yl ++ ps))
             acc w
  with
  | (w', Ok yl) =>
      for_ (concat chunks) (λ x yl, p ← f x; mret (yl ++ [p])) acc w
      = (w', Ok yl)
  | (_, Raise _) =>
      ∃ w'' e', for_ (concat chunks) (λ x yl, p ← f x; mret (yl ++ [p])) acc w
                = (w'', Raise e')
  end.
Proof.
  revert acc w. induction chunks as [| chunk chunks IH]; intros acc w; [done |].
  rewrite for_cons_chunks. cbn [concat]. rewrite for_app, bind_eq.
  pose proof (pool_vs_loop ff f chunk acc w) as Hc.
  destruct (pool_map ff f chunk w) as [w1 [ps | e]].
  - rewrite Hc. apply IH.
  - destruct Hc as (w'' & e' & ->). eauto.
Qed.

(** Tasks that keep [I], return [h x] when [Q x] holds and raise an
    exception in [P] otherwise: what a pool, a loop of pools and the plain
    loop make of them. *)
Lemma pool_run_spec {A B} I Q P (f : A → M B) h chunk w :
  task_spec I Q P f h chunk → I w →
  I (pool_run f chunk w).1
  ∧ Forall P (failures (pool_run f chunk w).2)
  ∧ ((Forall Q chunk
      ∧ failures (pool_run f chunk w).2 = []
      ∧ returned (pool_run f chunk w).2 = map h chunk)
     ∨ (¬ Forall Q chunk ∧ failures (pool_run f chunk w).2 ≠ [])).
Proof.
  revert w. induction chunk as [| x chunk IH]; intros w Hspec Hw.
  { cbn. split; [done |]. split; [constructor |]. left. by repeat constructor. }
  destruct (Hspec x w ltac:(by left) Hw) as (w1 & Hw1 & Hx).
  assert (task_spec I Q P f h chunk) as Hspec'
    by (intros y w' Hy; apply Hspec; by right).
  specialize (IH w1 Hspec' Hw1). cbn [pool_run].
  destruct Hx as [[HQ ->] | (HQ & e & He & ->)];
    destruct (pool_run f chunk w1) as [w2 rs];
    cbn [fst snd failures returned] in *;
    destruct IH as (Hw2 & HP & Hcase).
  - split; [done |]. split; [done |].
    destruct Hcase as [(HQs & -> & ->) | (HQs & Hne)].
    + left. split; [by constructor | done].
    + right. split; [| done]. intros H. apply HQs. by inversion H.
  - split; [done |]. split; [by constructor |]. right. split; [| done].
    intros H. apply HQ. by inversion H.
Qed.

Lemma chunks_spec {A B} I Q P ff (f : A → M B) h chunks acc w :
  task_spec I Q P f h (concat chunks) → I w →
  ∃ w',
    (Forall Q (concat chunks) ∧ I w'
     ∧ for_ chunks (λ chunk yl, ps ← pool_map ff f chunk; mret (yl ++ ps))
            acc w
       = (w', Ok (acc ++ map h (concat chunks))))
    ∨ (¬ Forall Q (concat chunks)
       ∧ ∃ e, P e
              ∧ for_ chunks
                     (λ chunk yl, ps ← pool_map ff f chunk; mret (yl ++ ps))
                     acc w
                = (w', Raise e)).
Proof.
  revert acc w. induction chunks as [| chunk chunks IH]; intros acc w Hspec Hw.
  { exists w. left. cbn. rewrite app_nil_r. by repeat constructor. }
  cbn [concat] in *.
  assert (task_spec I Q P f h chunk) as Hc
    by (intros x w' Hx; apply Hspec, elem_of_app; by left).
  assert (task_spec I Q P f h (concat chunks)) as Hcs
    by (intros x w' Hx; apply Hspec, elem_of_app; by right).
  rewrite for_cons_chunks, pool_map_eq.
  destruct (pool_run_spec I Q P f h chunk w Hc Hw) as (Hw1 & HP & Hcase).
  destruct (pool_run f chunk w) as [w1 rs]. cbn [fst snd] in *.
  destruct Hcase as [(HQ & Hf & Hr) | (HQ & Hne)].
  - unfold gather. rewrite Hf, Hr.
    destruct (IH (acc ++ map h chunk) w1 Hcs Hw1)
      as [w' [(HQs & Hw' & ->) | (HQs & e & He & ->)]].
    + exists w'. left. split; [by apply Forall_app |]. split; [done |].
      by rewrite map_app, app_assoc.
    + exists w'. right. split; [| eauto].
      intros [_ H]%Forall_app. done.
  - exists w1. right. split; [intros [H _]%Forall_app; done |].
    destruct (gather ff rs) as [ps | e] eqn:G.
    + by apply gather_Ok in G as [G _].
    + exists e. split; [| done]. apply gather_Raise in G.
      rewrite Forall_forall in HP. by apply HP.
Qed.

Lemma loop_spec {A B} I Q P (f : A → M B) h l acc w :
  task_spec I Q P f h l → I w →
  ∃ w',
    (Forall Q l ∧ I w'
     ∧ for_ l (λ x yl, p ← f x; mret (yl ++ [p])) acc w
       = (w', Ok (acc ++ map h l)))
    ∨ (¬ Forall Q l
       ∧ ∃ e, P e
              ∧ for_ l (λ x yl, p ← f x; mret (yl ++ [p])) acc w
                = (w', Raise e)).
Proof.
  intros Hspec Hw.
  destruct (pool_run_spec I Q P f h l w Hspec Hw) as (Hw1 & HP & Hcase).
  pose proof (pool_run_loop f l acc w) as Hl.
  destruct (pool_run f l w) as [w1 rs]. cbn [fst snd] in *.
  destruct Hcase as [(HQ & Hf & Hr) | (HQ & Hne)].
  - rewrite Hf in Hl. exists w1. left. by rewrite Hl, Hr.
  - destruct (failures rs) as [| e es]; [done |]. destruct Hl as [w'' Hl].
    exists w''. right. split; [done |]. exists e. split; [by inversion HP | done].
Qed.

Lemma sections_concat {A} (ary : list A) st sizes :
  concat (sections ary st sizes) = take (sum_list sizes) (drop st ary).
Proof.
  revert st. induction sizes as [| sz sizes IH]; intros st; cbn.
  - by rewrite take_0.
  - rewrite IH, <- drop_drop. apply take_take_drop.
Qed.

(** [np.array_split] cuts the list into consecutive pieces. *)
Lemma array_split_concat {A} (ary : list A) n chunks :
  array_split ary n = Ok chunks → concat chunks = ary.
Proof.
  unfold array_split. destruct (Z.leb_spec n 0) as [| Hn]; [done |].
  intros [= <-]. rewrite sections_concat, drop_0. apply take_ge.
  rewrite sum_list_with_app, !sum_list_replicate.
  pose proof (Z.div_mod (Z.of_nat (length ary)) n ltac:(lia)) as Hdm.
  pose proof (Z.mod_pos_bound (Z.of_nat (length ary)) n ltac:(lia)) as Hm.
  assert (0 ≤ Z.of_nat (length ary) `div` n) as Hq
    by (apply Z.div_pos; lia).
  nia.
Qed.

Lemma trunc_quotient (a b : Z) :
  0 ≤ a → 0 < b → Py.trunc (inject_Z a / inject_Z b)%Q = a `div` b.
Proof.
  intros Ha Hb. unfold Py.trunc.
  assert (Qle_bool 0 (inject_Z a / inject_Z b) = true) as ->.
  { apply Qle_bool_iff, Qle_shift_div_l.
    - unfold Qlt. cbn. lia.
    - unfold Qle. cbn. lia. }
  symmetry. apply Zdiv_Qdiv.
Qed.

(** With at least one year and one process, [multiprocess_rcp] cuts the
    year list into consecutive chunks, runs a pool on each, merges and
    prints the time. *)
Lemma multiprocess_chunks tree ind :
  in_yrs ind ≠ [] → 1 ≤ in_procs ind →
  ∃ chunks,
    concat chunks
    = map (λ yr, (yr, Args (in_valnames ind) (in_ascdir ind) (in_dimvals ind)
                           (in_outfil ind))) (in_yrs ind)
    ∧ ∀ nco ff elapsed w,
        multiprocess_rcp nco tree ind ff elapsed w
        = (yearlist ← for_ chunks
                        (λ chunk yearlist,
                           ps ← pool_map ff (fullyr tree) chunk;
                           mret (yearlist ++ ps)) [];
           _ ← catdata nco (py_sort yearlist) (in_outfil ind);
           print_time "time to combine ascii to a single nc:" elapsed) w.
Proof.
  intros Hyrs Hprocs. unfold multiprocess_rcp. cbv zeta.
  assert (1 ≤ Z.of_nat (length (in_yrs ind))) as Hlen
    by (destruct (in_yrs ind); [done | cbn; lia]).
  destruct (Z.eqb_spec (Z.min (Z.of_nat (length (in_yrs ind))) (in_procs ind)) 0)
    as [| _]; [lia |].
  rewrite length_map, trunc_quotient by lia.
  destruct (array_split _ _) as [chunks | e] eqn:E.
  - exists chunks. split; [by eapply array_split_concat | done].
  - unfold array_split in E.
    destruct (Z.leb_spec
                (Z.of_nat (length (in_yrs ind))
                 `div` Z.min (Z.of_nat (length (in_yrs ind))) (in_procs ind)) 0)
      as [Hle |]; [| done].
    assert (1 ≤ Z.of_nat (length (in_yrs ind))
                `div` Z.min (Z.of_nat (length (in_yrs ind))) (in_procs ind));
      [| lia].
    apply Z.div_le_lower_bound; lia.
Qed.

(** ** fullyr *)

Lemma fullyr_eq tree yr a :
  fullyr tree (yr, a)
  = (st ← year_tables tree yr a;
     _ ← outcube (concatenate st.2) (outnm (a_outfil a) yr);
     mret (outnm (a_outfil a) yr)).
Proof. reflexivity. Qed.

Lemma singleprocess_eq nco tree ind elapsed :
  singleprocess_rcp nco tree ind elapsed
  = (yearlist ← collect_years tree ind;
     _ ← catdata nco (py_sort yearlist) (in_outfil ind);
     print_time "time to combine ascii to a set of nc files:" elapsed).
Proof. reflexivity. Qed.

Lemma table_step_eq tree yr a prod irr n cubelst w :
  table_step tree yr a prod irr (n, cubelst) w
  = match readascii tree (table_path (a_ascdir a) (a_valnames a) yr prod irr)
            (a_dimvals a) w with
    | (w1, Ok cubes) =>
        (World (files w1)
           (stdout w1 ++ ["cube " +:+ pretty (n + 1)%nat +:+ " of "
                            +:+ pretty (length prod_lst * length irr_lst)%nat
                            +:+ " appended for year " +:+ yr]),
         Ok ((n + 1)%nat, cubelst ++ cubes))
    | (w1, Raise e) => (w1, Raise e)
    end.
Proof.
  unfold table_step. rewrite bind_eq.
  by destruct (readascii _ _ _ w) as [w1 [cubes | e]].
Qed.

Lemma for_Raise_inv {A S} (l : list A) (body : A → S → M S) s w e :
  (for_ l body s w).2 = Raise e →
  ∃ x s1 w1, x ∈ l ∧ (body x s1 w1).2 = Raise e.
Proof.
  revert s w. induction l as [| x l IH]; intros s w; [done |].
  cbn [for_]. rewrite bind_eq. destruct (body x s w) as [w1 [s1 | e1]] eqn:E.
  - intros (y & s2 & w2 & Hy & H)%IH. exists y, s2, w2. split; [by right | done].
  - cbn. intros [= ->]. exists x, s, w. split; [by left | by rewrite E].
Qed.

Lemma for_Ok_inv {A S} (l : list A) (body : A → S → M S) s w s' :
  (for_ l body s w).2 = Ok s' →
  ∀ x, x ∈ l → ∃ s1 w1, is_ok (body x s1 w1).2 = true.
Proof.
  revert s w. induction l as [| x l IH]; intros s w H y Hy.
  { by apply elem_of_nil in Hy. }
  cbn [for_] in H. rewrite bind_eq in H.
  destruct (body x s w) as [w1 [s1 | e1]] eqn:E; [| done].
  apply elem_of_cons in Hy as [-> | Hy].
  - exists s, w. by rewrite E.
  - by eapply IH.
Qed.

Lemma for_Ok_all {A S} (l : list A) (body : A → S → M S) s w :
  (∀ x s1 w1, x ∈ l → is_ok (body x s1 w1).2 = true) →
  is_ok (for_ l body s w).2 = true.
Proof.
  revert s w. induction l as [| x l IH]; intros s w H; [done |].
  cbn [for_]. rewrite bind_eq. pose proof (H x s w ltac:(by left)) as Hx.
  destruct (body x s w) as [w1 [s1 | e1]]; [| done].
  apply IH. intros y s2 w2 Hy. apply H. by right.
Qed.

Lemma table_step_prints_only tree yr a prod irr st :
  prints_only (table_step tree yr a prod irr st).
Proof.
  destruct st as [n cubelst]. unfold table_step. cbv zeta.
  apply prints_only_bind; [apply readascii_prints_only | intros cubes].
  apply prints_only_bind; [apply prints_only_print | intros _].
  apply prints_only_ret.
Qed.

Lemma year_tables_prints_only tree yr a : prints_only (year_tables tree yr a).
Proof.
  apply prints_only_for. intros prod st. apply prints_only_for.
  intros irr st'. apply table_step_prints_only.
Qed.

Lemma table_step_result tree yr a prod irr st w :
  (table_step tree yr a prod irr st w).2
  = match (readascii tree (table_path (a_ascdir a) (a_valnames a) yr prod irr)
             (a_dimvals a) (World ∅ [])).2 with
    | Ok cubes => Ok ((st.1 + 1)%nat, st.2 ++ cubes)
    | Raise e => Raise e
    end.
Proof.
  destruct st as [n cubelst]. rewrite table_step_eq.
  rewrite (prints_only_result _ (World ∅ []) w (readascii_prints_only _ _ _)).
  by destruct (readascii _ _ _ w) as [w1 [cubes | e]].
Qed.

(** What the two loops of [fullyr] raise was raised by [readascii] on one
    of the tables of the year; they end normally exactly when [readascii]
    assembles every table of the year. *)
Lemma year_tables_Raise tree yr a w e :
  (year_tables tree yr a w).2 = Raise e →
  ∃ prod irr,
    prod ∈ prod_lst ∧ irr ∈ irr_lst
    ∧ (readascii tree (table_path (a_ascdir a) (a_valnames a) yr prod irr)
         (a_dimvals a) (World ∅ [])).2 = Raise e.
Proof.
  unfold year_tables. intros E.
  apply for_Raise_inv in E as (prod & s1 & w2 & Hp & H).
  apply for_Raise_inv in H as (irr & s2 & w3 & Hi & H).
  rewrite table_step_result in H. exists prod, irr. split; [done |].
  split; [done |].
  destruct (readascii _ _ _ _).2; [discriminate H | by injection H as ->].
Qed.

Lemma year_tables_Ok tree yr a w st :
  (year_tables tree yr a w).2 = Ok st → year_assembled tree (yr, a).
Proof.
  unfold year_tables. intros Hst prod irr Hp Hi.
  destruct (for_Ok_inv _ _ _ _ _ Hst prod Hp) as (s1 & w3 & H).
  destruct (for_ irr_lst (table_step tree yr a prod) s1 w3) as [w4 [s4 | e4]] eqn:E;
    [| done].
  apply (f_equal snd) in E. cbn [snd] in E.
  destruct (for_Ok_inv _ _ _ _ _ E irr Hi) as (s2 & w5 & H').
  rewrite table_step_result in H'. cbn [fst snd].
  by destruct (readascii _ _ _ _).2.
Qed.

Lemma year_tables_assembled tree yr a w :
  year_assembled tree (yr, a) → is_ok (year_tables tree yr a w).2 = true.
Proof.
  intros Hall. apply for_Ok_all. intros prod s1 w1 Hp. apply for_Ok_all.
  intros irr s2 w2 Hi. rewrite table_step_result.
  specialize (Hall prod irr Hp Hi). cbn [fst snd] in Hall.
  by destruct (readascii _ _ _ _).2.
Qed.

(** [fullyr] on names without [%]: what the tables raise; or, all tables
    assembled, [OSError] when the directory of the year path is not
    there; or else the year product saved at a free path, the year path
    or a numbered variant of it, and the year path returned. *)
Lemma fullyr_cases tree yr a w :
  no_percent (a_outfil a) = true → no_percent yr = true →
  ∃ msgs,
    match (year_tables tree yr a w).2 with
    | Raise e =>
        fullyr tree (yr, a) w = (World (files w) (stdout w ++ msgs), Raise e)
    | Ok st =>
        if dir_ready (files w) (outnm (a_outfil a) yr) then
          ∃ p,
            fullyr tree (yr, a) w
            = (World (<[p := NcFile (concatenate st.2)]> (files w))
                     (stdout w ++ msgs),
               Ok (outnm (a_outfil a) yr))
            ∧ files w !! p = None
            ∧ (p = outnm (a_outfil a) yr
               ∨ ∃ i, p = fmt (Pattern ((a_outfil a +:+ "_" +:+ yr) +:+ "_")
                                       ".nc") i)
        else
          fullyr tree (yr, a) w
          = (World (files w) (stdout w ++ msgs), Raise OSError)
    end.
Proof.
  intros Ho Hyr.
  destruct (year_tables_prints_only tree yr a) as (msgs & r & Hy).
  exists msgs. rewrite fullyr_eq, bind_eq, !Hy. cbn [snd].
  destruct r as [st | e]; [| done].
  rewrite bind_eq, outnm_stem.
  pose proof (outcube_cases (concatenate st.2) (a_outfil a +:+ "_" +:+ yr)
                (World (files w) (stdout w ++ msgs))) as H.
  cbn [files] in H.
  specialize (H ltac:(by rewrite !no_percent_app, Ho, Hyr)).
  destruct (dir_ready (files w) _).
  - destruct H as (p & -> & Hfree & Hp). by exists p.
  - by rewrite H.
Qed.

(** [fullyr] returns the year path. *)
Lemma fullyr_Ok_inv tree yr a w w' p :
  fullyr tree (yr, a) w = (w', Ok p) → p = outnm (a_outfil a) yr.
Proof.
  rewrite fullyr_eq. intros (w1 & st & Hst & H)%bind_Ok_inv.
  apply bind_Ok_inv in H as (w2 & [] & _ & H). by injection H as <- <-.
Qed.

(** [fullyr] leaves the final path of the run alone. *)
Lemma fullyr_keeps_final tree yr a :
  no_percent (a_outfil a) = true → no_percent yr = true →
  keeps (a_outfil a +:+ ".nc") (fullyr tree (yr, a)).
Proof.
  intros Ho Hyr w. destruct (fullyr_cases tree yr a w Ho Hyr) as [msgs H].
  destruct (year_tables tree yr a w).2 as [st | e]; [| by rewrite H].
  destruct (dir_ready _ _); [| by rewrite H].
  destruct H as (p & -> & _ & Hp). cbn. rewrite lookup_insert_ne; [done |].
  destruct Hp as [-> | [i ->]]; intros E; symmetry in E;
    [by apply final_ne_outnm in E | by apply final_ne_variant_stem in E].
Qed.

(** [fullyr] as a task of the schedulers: it keeps the directories of the
    year paths, returns the year path when every table of the year is
    assembled, and otherwise raises what [readascii] raised. *)
Lemma fullyr_task_spec tree a yrs (P : exn → Prop) :
  no_percent (a_outfil a) = true →
  Forall (λ y, no_percent y = true) yrs →
  (∀ yr prod irr e,
     yr ∈ yrs → prod ∈ prod_lst → irr ∈ irr_lst →
     (readascii tree (table_path (a_ascdir a) (a_valnames a) yr prod irr)
        (a_dimvals a) (World ∅ [])).2 = Raise e → P e) →
  task_spec
    (λ w, Forall (λ y, dir_ready (files w) (outnm (a_outfil a) y) = true) yrs)
    (year_assembled tree) P (fullyr tree) (λ x, outnm (a_outfil a) x.1)
    (map (λ yr, (yr, a)) yrs).
Proof.
  intros Ho Hys HP x w [yr [-> Hy]]%list_elem_of_fmap HI.
  rewrite Forall_forall in Hys.
  destruct (fullyr_cases tree yr a w Ho (Hys yr Hy)) as [msgs H].
  destruct (year_tables tree yr a w).2 as [st | e] eqn:E.
  - assert (dir_ready (files w) (outnm (a_outfil a) yr) = true) as Hd
      by (rewrite Forall_forall in HI; by apply HI).
    rewrite Hd in H. destruct H as (p & -> & Hfree & _).
    eexists. split; [| left; split; [by eapply year_tables_Ok | done]].
    cbn [files]. eapply Forall_impl; [exact HI |].
    intros y Hdy. by apply dir_ready_insert.
  - exists (World (files w) (stdout w ++ msgs)). split; [| right; split].
    + exact HI.
    + intros HQ. apply (year_tables_assembled _ _ _ w) in HQ.
      by rewrite E in HQ.
    + exists e. split; [| done].
      apply year_tables_Raise in E as (prod & irr & Hp & Hi & Hr).
      by eapply HP.
Qed.

(** ** The schedulers *)

Lemma keeps_for {A S} q (l : list A) (body : A → S → M S) s :
  (∀ x s, x ∈ l → keeps q (body x s)) → keeps q (for_ l body s).
Proof.
  revert s. induction l as [| x l IH]; intros s Hb w; [done |].
  cbn [for_]. rewrite bind_eq. pose proof (Hb x s ltac:(by left) w) as Hx.
  destruct (body x s w) as [w1 [s1 | e]]; [| done]. cbn in Hx.
  rewrite IH; [done |]. intros y s2 Hy. apply Hb. by right.
Qed.

Lemma keeps_then_ret {A B} q (m : M A) (g : A → B) :
  keeps q m → keeps q (a ← m; mret (g a)).
Proof.
  intros Hm w. rewrite bind_eq. specialize (Hm w).
  by destruct (m w) as [w1 [a | e]].
Qed.

Lemma keeps_pool_run {A B} q (f : A → M B) chunk w :
  (∀ x, x ∈ chunk → keeps q (f x)) →
  files (pool_run f chunk w).1 !! q = files w !! q.
Proof.
  revert w. induction chunk as [| x chunk IH]; intros w Hf; [done |].
  cbn [pool_run]. pose proof (Hf x ltac:(by left) w) as Hx.
  destruct (f x w) as [w1 r]. cbn in Hx.
  specialize (IH w1 (λ y Hy, Hf y ltac:(by right))).
  destruct (pool_run f chunk w1) as [w2 rs]. cbn in IH |- *. congruence.
Qed.

Lemma keeps_pool_map {A B} q ff (f : A → M B) chunk :
  (∀ x, x ∈ chunk → keeps q (f x)) → keeps q (pool_map ff f chunk).
Proof. intros Hf w. rewrite pool_map_eq. by apply keeps_pool_run. Qed.

Lemma elem_of_concat {A} (x : A) (ls : list (list A)) l :
  l ∈ ls → x ∈ l → x ∈ concat ls.
Proof.
  induction ls as [| l' ls IH]; intros Hl Hx; [by apply elem_of_nil in Hl |].
  cbn. apply elem_of_app. apply elem_of_cons in Hl as [<- | Hl]; [by left |].
  right. by apply IH.
Qed.

(** Neither the loop over the years nor the loop of pools touches the
    final path. *)
Lemma collect_years_keeps_final tree ind :
  no_percent (in_outfil ind) = true →
  Forall (λ y, no_percent y = true) (in_yrs ind) →
  keeps (in_outfil ind +:+ ".nc") (collect_years tree ind).
Proof.
  intros Ho Hys. rewrite Forall_forall in Hys.
  apply keeps_for. intros [yr a] yl [yr' [[= -> ->] Hy]]%list_elem_of_fmap.
  apply (keeps_then_ret _ (fullyr tree _) (λ p, yl ++ [p])).
  apply (fullyr_keeps_final tree yr'
           (Args (in_valnames ind) (in_ascdir ind) (in_dimvals ind)
                 (in_outfil ind))); [done | by apply Hys].
Qed.

Lemma pool_years_keeps_final tree ind ff chunks :
  concat chunks
  = map (λ yr, (yr, Args (in_valnames ind) (in_ascdir ind) (in_dimvals ind)
                         (in_outfil ind))) (in_yrs ind) →
  no_percent (in_outfil ind) = true →
  Forall (λ y, no_percent y = true) (in_yrs ind) →
  keeps (in_outfil ind +:+ ".nc")
    (for_ chunks (λ chunk yl, ps ← pool_map ff (fullyr tree) chunk;
                              mret (yl ++ ps)) []).
Proof.
  intros Hcat Ho Hys. rewrite Forall_forall in Hys.
  apply keeps_for. intros chunk yl Hchunk.
  apply (keeps_then_ret _ (pool_map ff (fullyr tree) chunk) (λ ps, yl ++ ps)).
  apply keeps_pool_map. intros [yr a] Hx.
  pose proof (elem_of_concat _ _ _ Hchunk Hx) as Hin. rewrite Hcat in Hin.
  apply list_elem_of_fmap in Hin as [yr' [[= -> ->] Hy]].
  apply (fullyr_keeps_final tree yr'
           (Args (in_valnames ind) (in_ascdir ind) (in_dimvals ind)
                 (in_outfil ind))); [done | by apply Hys].
Qed.

Lemma collect_loop_results {A} (f : A → M string) (h : A → string) l acc w w' yl :
  (∀ x w1 w2 p, x ∈ l → f x w1 = (w2, Ok p) → p = h x) →
  for_ l (λ x yl, p ← f x; mret (yl ++ [p])) acc w = (w', Ok yl) →
  yl = acc ++ map h l.
Proof.
  revert acc w. induction l as [| x l IH]; intros acc w Hf.
  { cbn. intros [= _ <-]. by rewrite app_nil_r. }
  rewrite for_cons_collect. destruct (f x w) as [w1 [p | e]] eqn:E; [| done].
  intros H. apply IH in H; [| intros y ? ? ? Hy; apply Hf; by right].
  rewrite (Hf x w w1 p ltac:(by left) E) in H. by rewrite H, <- app_assoc.
Qed.

(** The year paths come back in the order of the year list. *)
Lemma collect_years_results tree ind w w' yl :
  collect_years tree ind w = (w', Ok yl) →
  yl = map (outnm (in_outfil ind)) (in_yrs ind).
Proof.
  unfold collect_years. intros H.
  apply (collect_loop_results _ (λ d, outnm (in_outfil ind) d.1)) in H.
  - rewrite H. cbn. by rewrite map_map.
  - intros [yr a] w1 w2 p [yr' [[= -> ->] _]]%list_elem_of_fmap Hp.
    by apply fullyr_Ok_inv in Hp as ->.
Qed.

Lemma tasks_year_raises tree a yrs e :
  (∃ x w0, x ∈ map (λ yr, (yr, a)) yrs ∧ (fullyr tree x w0).2 = Raise e) →
  year_raises tree a yrs e.
Proof.
  intros (x & w0 & [yr [-> Hy]]%list_elem_of_fmap & H). by exists yr, w0.
Qed.

(** With at least one year and one process the two schedulers collect the
    same year paths in the same world and hand them, sorted, to the same
    call of [catdata], each printing its own line afterwards; or a year
    fails, and both raise what a year raised without having touched the
    final path. *)
Lemma schedulers_agree nco tree ind ff elapsed elapsed' w :
  in_yrs ind ≠ [] → 1 ≤ in_procs ind →
  match collect_years tree ind w with
  | (w1, Ok yl) =>
      yl = map (outnm (in_outfil ind)) (in_yrs ind)
      ∧ singleprocess_rcp nco tree ind elapsed' w
        = (_ ← catdata nco (py_sort yl) (in_outfil ind);
           print_time "time to combine ascii to a set of nc files:" elapsed')
            w1
      ∧ multiprocess_rcp nco tree ind ff elapsed w
        = (_ ← catdata nco (py_sort yl) (in_outfil ind);
           print_time "time to combine ascii to a single nc:" elapsed) w1
  | (w2, Raise e') =>
      singleprocess_rcp nco tree ind elapsed' w = (w2, Raise e')
      ∧ ∃ w1 e,
          multiprocess_rcp nco tree ind ff elapsed w = (w1, Raise e)
          ∧ year_raises tree
              (Args (in_valnames ind) (in_ascdir ind) (in_dimvals ind)
                    (in_outfil ind)) (in_yrs ind) e
          ∧ year_raises tree
              (Args (in_valnames ind) (in_ascdir ind) (in_dimvals ind)
                    (in_outfil ind)) (in_yrs ind) e'
          ∧ (no_percent (in_outfil ind) = true →
             Forall (λ y, no_percent y = true) (in_yrs ind) →
             files w1 !! (in_outfil ind +:+ ".nc")
             = files w !! (in_outfil ind +:+ ".nc")
             ∧ files w2 !! (in_outfil ind +:+ ".nc")
               = files w !! (in_outfil ind +:+ ".nc"))
  end.
Proof.
  intros Hyrs Hprocs.
  destruct (multiprocess_chunks tree ind Hyrs Hprocs) as (chunks & Hcat & ->).
  rewrite singleprocess_eq, !bind_eq.
  pose proof (chunks_vs_loop ff (fullyr tree) chunks [] w) as Hc.
  pose proof (chunks_Raise_inv ff (fullyr tree) chunks [] w) as Hci.
  rewrite Hcat in Hc, Hci. fold (collect_years tree ind) in Hc.
  pose proof (pool_years_keeps_final tree ind ff chunks Hcat) as Hkc.
  pose proof (collect_years_keeps_final tree ind) as Hk.
  destruct (for_ chunks _ [] w) as [w1 [yl | e]] eqn:Ech.
  - rewrite Hc. split; [by eapply collect_years_results | done].
  - destruct Hc as (w2 & e' & Hc). rewrite Hc. split; [done |]. exists w1, e.
    split; [done |]. split; [by eapply tasks_year_raises, Hci |].
    split; [by eapply tasks_year_raises, loop_Raise_inv |].
    intros Ho Hys. split.
    + specialize (Hkc Ho Hys w). by rewrite Ech in Hkc.
    + specialize (Hk Ho Hys w). by rewrite Hc in Hk.
Qed.





Lemma all_assembled_year tree ascdir vn dv yrs yr :
  all_assembled tree ascdir vn dv yrs = true →
  yr ∈ yrs → year_assembled tree (yr, Args vn ascdir dv "").
Proof.
  unfold all_assembled. rewrite forallb_forall. intros H Hy prod irr Hp Hi.
  apply list_elem_of_In in Hy, Hp, Hi.
  specialize (H yr Hy). rewrite forallb_forall in H.
  specialize (H prod Hp). rewrite forallb_forall in H. by apply H.
Qed.

(** When every table of every year is assembled and the directories of
    the year paths are there, the years are collected in the order of the
    year list. *)
Lemma collect_years_assembled tree ind w :
  no_percent (in_outfil ind) = true →
  Forall (λ y, no_percent y = true) (in_yrs ind) →
  Forall (λ y, dir_ready (files w) (outnm (in_outfil ind) y) = true)
         (in_yrs ind) →
  all_assembled tree (in_ascdir ind) (in_valnames ind) (in_dimvals ind)
    (in_yrs ind) = true →
  ∃ w1, collect_years tree ind w
        = (w1, Ok (map (outnm (in_outfil ind)) (in_yrs ind))).
Proof.
  intros Ho Hys Hdir Hall. unfold collect_years.
  set (a := Args (in_valnames ind) (in_ascdir ind) (in_dimvals ind)
                 (in_outfil ind)).
  destruct (loop_spec _ _ (λ _, True) (fullyr tree)
              (λ x, outnm (in_outfil ind) x.1)
              (map (λ yr, (yr, a)) (in_yrs ind)) [] w
              (fullyr_task_spec tree a (in_yrs ind) (λ _, True) Ho Hys
                 (λ _ _ _ _ _ _ _ _, Logic.I)) Hdir)
    as [w1 [(_ & _ & H) | (HQ & _)]].
  - exists w1. rewrite H. cbn. by rewrite map_map.
  - exfalso. apply HQ. apply Forall_forall.
    intros x [yr [-> Hy]]%list_elem_of_fmap.
    apply (all_assembled_year _ _ _ _ _ _ Hall Hy).
Qed.

(** When every year is assembled, [multiprocess_rcp] is the call of
    [catdata] on the sorted list of the year paths, followed by the line
    of timing. *)
Lemma multiprocess_hands tree yrs ascdir vn procs dv outfil w :
  yrs ≠ [] → 1 ≤ procs →
  no_percent outfil = true →
  Forall (λ y, no_percent y = true) yrs →
  Forall (λ y, dir_ready (files w) (outnm outfil y) = true) yrs →
  all_assembled tree ascdir vn dv yrs = true →
  ∃ w1, ∀ nco first_failed elapsed,
    multiprocess_rcp nco tree (Indata yrs ascdir vn procs dv outfil)
      first_failed elapsed w
    = (_ ← catdata nco (py_sort (map (outnm outfil) yrs)) outfil;
       print_time "time to combine ascii to a single nc:" elapsed) w1.
Proof.
  intros Hyrs Hprocs Ho Hys Hdir Hall.
  destruct (collect_years_assembled tree
              (Indata yrs ascdir vn procs dv outfil) w Ho Hys Hdir Hall)
    as [w1 Hcol].
  exists w1. intros nco ff elapsed.
  pose proof (schedulers_agree nco tree
                (Indata yrs ascdir vn procs dv outfil) ff elapsed 0 w
                Hyrs Hprocs) as H.
  rewrite Hcol in H. by destruct H as (_ & _ & ->).
Qed.

Lemma all_assembled_perm tree ascdir vn dv yrs yrs' :
  yrs' ≡ₚ yrs →
  all_assembled tree ascdir vn dv yrs = true →
  all_assembled tree ascdir vn dv yrs' = true.
Proof.
  unfold all_assembled. rewrite !forallb_forall. intros Hp H yr Hy.
  apply H. apply list_elem_of_In. rewrite <- Hp. by apply list_elem_of_In.
Qed.

(** At any rate [multiprocess_rcp] raises what [fullyr] raised on a year,
    or is the call of [catdata] on the sorted list of the year paths,
    followed by the line of timing. *)
Lemma multiprocess_hands_or_raises nco tree yrs ascdir vn procs dv outfil
    first_failed elapsed w :
  yrs ≠ [] → 1 ≤ procs →
  (∃ w1,
     multiprocess_rcp nco tree (Indata yrs ascdir vn procs dv outfil)
       first_failed elapsed w
     = (_ ← catdata nco (py_sort (map (outnm outfil) yrs)) outfil;
        print_time "time to combine ascii to a single nc:" elapsed) w1)
  ∨ (∃ w1 e,
       multiprocess_rcp nco tree (Indata yrs ascdir vn procs dv outfil)
         first_failed elapsed w
       = (w1, Raise e)
       ∧ year_raises tree (Args vn ascdir dv outfil) yrs e).
Proof.
  intros Hyrs Hprocs.
  pose proof (schedulers_agree nco tree
                (Indata yrs ascdir vn procs dv outfil) first_failed
                elapsed 0 w Hyrs Hprocs) as H.
  cbn [in_outfil in_yrs in_valnames in_ascdir in_dimvals] in H.
  destruct (collect_years tree _ w) as [w1 [yl | e]].
  - destruct H as (-> & _ & ->). left. by exists w1.
  - destruct H as (_ & w1' & e' & -> & He' & _). right. by exists w1', e'.
Qed.

Lemma year_raises_perm tree a yrs yrs' e :
  yrs' ≡ₚ yrs → year_raises tree a yrs' e → year_raises tree a yrs e.
Proof.
  intros Hp (yr & w0 & Hy & H). exists yr, w0. split; [by rewrite <- Hp | done].
Qed.

(** C7, amended.  For a year list that is not empty and a worker bound of
    at least one, there is one list [ys] of the years, in sorted order of
    their year paths, such that [multiprocess_rcp], in whatever order the
    years come, whichever task finishes first and whatever the clock
    shows, either raises what [fullyr] raised on a year or hands the year
    paths of [ys] to [catdata]; and it does hand them over when every
    year is assembled (the names being without [%], the directories of
    the year paths being there).  For year names written in decimal
    digits [ys] is in the lexicographic order of the year names, and for
    such names of one length (four-digit years) in the order of the year
    numbers. *)
Theorem multiprocess_hands_sorted_years tree yrs ascdir vn procs dv outfil :
  yrs ≠ [] → 1 ≤ procs →
  ∃ ys,
    ys ≡ₚ yrs
    ∧ Sorted str_le (map (outnm outfil) ys)
    ∧ (Forall (λ y, all_digits y = true) yrs →
       Sorted str_le ys
       ∧ ∀ n, Forall (λ y, String.length y = n) yrs →
              Sorted (λ a b, year_number a ≤ year_number b) ys)
    ∧ ∀ yrs' w, yrs' ≡ₚ yrs →
        (∀ nco first_failed elapsed,
           (∃ w1,
              multiprocess_rcp nco tree
                (Indata yrs' ascdir vn procs dv outfil) first_failed elapsed w
              = (_ ← catdata nco (map (outnm outfil) ys) outfil;
                 print_time "time to combine ascii to a single nc:" elapsed)
                  w1)
           ∨ (∃ w1 e,
                multiprocess_rcp nco tree
                  (Indata yrs' ascdir vn procs dv outfil) first_failed
                  elapsed w
                = (w1, Raise e)
                ∧ year_raises tree (Args vn ascdir dv outfil) yrs e))
        ∧ (no_percent outfil = true →
           Forall (λ y, no_percent y = true) yrs →
           Forall (λ y, dir_ready (files w) (outnm outfil y) = true) yrs →
           all_assembled tree ascdir vn dv yrs = true →
           ∃ w1, ∀ nco first_failed elapsed,
             multiprocess_rcp nco tree
               (Indata yrs' ascdir vn procs dv outfil) first_failed elapsed w
             = (_ ← catdata nco (map (outnm outfil) ys) outfil;
                print_time "time to combine ascii to a single nc:" elapsed)
                 w1).
Proof.
  intros Hyrs Hprocs.
  assert (py_sort (map (outnm outfil) yrs) ≡ₚ map (outnm outfil) yrs) as Hp
    by apply merge_sort_Permutation.
  apply Permutation_map_inv in Hp as (ys & Hys & Hperm).
  assert (Sorted str_le (map (outnm outfil) ys)) as Hsorted.
  { rewrite <- Hys. apply Sorted_merge_sort, _. }
  exists ys. split; [done |]. split; [done |]. split.
  - intros Hdig.
    assert (Forall (λ y, all_digits y = true) ys) as Hdig'
      by (by rewrite <- Hperm).
    assert (Sorted str_le ys) as Hs.
    { apply (Sorted_map_inv (outnm outfil) (λ y, all_digits y = true) _ str_le);
        [| done | done].
      intros x y Hx Hy. by apply outnm_le. }
    split; [done |]. intros n Hlen. apply (sorted_years_numeric ys n); [done | | done].
    by rewrite <- Hperm.
  - intros yrs' w Hperm'.
    assert (yrs' ≠ []) as Hyrs'.
    { intros ->. apply Permutation_nil_l in Hperm'. by subst. }
    assert (py_sort (map (outnm outfil) yrs') = map (outnm outfil) ys) as Hsort.
    { rewrite <- Hys. apply py_sort_perm. by apply Permutation_map. }
    split.
    + intros nco ff elapsed.
      destruct (multiprocess_hands_or_raises nco tree yrs' ascdir vn procs dv
                  outfil ff elapsed w Hyrs' Hprocs)
        as [[w1 H] | (w1 & e & H & He)].
      * left. exists w1. by rewrite H, Hsort.
      * right. exists w1, e. split; [done |]. by eapply year_raises_perm.
    + intros Ho Hpl Hdir Hall.
      destruct (multiprocess_hands tree yrs' ascdir vn procs dv outfil w)
        as [w1 H]; [done | done | done | by rewrite Hperm' | by rewrite Hperm'
                   | by apply (all_assembled_perm _ _ _ _ yrs) |].
      exists w1. intros nco ff elapsed. by rewrite H, Hsort.
Qed.

Lemma multiprocess_hands_sorted_years_witness :
  ∃ ys,
    ys ≡ₚ ["1981"; "1980"]
    ∧ Sorted str_le (map (outnm "/out/m") ys)
    ∧ Sorted (λ a b, year_number a ≤ year_number b) ys
    ∧ ∃ w1, ∀ nco first_failed elapsed,
        multiprocess_rcp nco (complete_tree malawi_maize ["1981"; "1980"])
          (Indata ["1981"; "1980"] "/in/" malawi_maize 2 malawi_maize_codes
                  "/out/m") first_failed elapsed out_world
        = (_ ← catdata nco (map (outnm "/out/m") ys) "/out/m";
           print_time "time to combine ascii to a single nc:" elapsed) w1.
Proof.
  destruct (multiprocess_hands_sorted_years
              (complete_tree malawi_maize ["1981"; "1980"]) ["1981"; "1980"]
              "/in/" malawi_maize 2 malawi_maize_codes "/out/m")
    as (ys & Hperm & Hsorted & Hdigits & Hruns); [done | lia |].
  exists ys. split; [exact Hperm |]. split; [exact Hsorted |]. split.
  - apply (proj2 (Hdigits ltac:(by repeat constructor)) 4%nat).
    by repeat constructor.
  - apply (Hruns ["1981"; "1980"] out_world ltac:(done)).
    + by vm_compute.
    + apply (bool_decide_unpack _). by vm_compute.
    + apply (bool_decide_unpack _). by vm_compute.
    + by vm_compute.
Defined.

Lemma handed_list_not_by_year_counterexample :
  getyrs (complete_tree malawi_maize ["999"; "1000"]) "/in/" = ["999"; "1000"]
  ∧ year_number "999" < year_number "1000"
  ∧ (∃ w1, ∀ nco first_failed elapsed,
       multiprocess_rcp nco (complete_tree malawi_maize ["999"; "1000"])
         (Indata ["999"; "1000"] "/in/" malawi_maize 2 malawi_maize_codes
                 "/out/m") first_failed elapsed out_world
       = (_ ← catdata nco ["/out/m_1000.nc"; "/out/m_999.nc"] "/out/m";
          print_time "time to combine ascii to a single nc:" elapsed) w1)
  ∧ getyrs (complete_tree malawi_maize ["1980"; "1980-b"]) "/in/"
    = ["1980"; "1980-b"]
  ∧ Py.str_le "1980" "1980-b" = true
  ∧ (∃ w1, ∀ nco first_failed elapsed,
       multiprocess_rcp nco (complete_tree malawi_maize ["1980"; "1980-b"])
         (Indata ["1980"; "1980-b"] "/in/" malawi_maize 2 malawi_maize_codes
                 "/out/m") first_failed elapsed out_world
       = (_ ← catdata nco ["/out/m_1980-b.nc"; "/out/m_1980.nc"] "/out/m";
          print_time "time to combine ascii to a single nc:" elapsed) w1).
Proof.
  split; [by vm_compute |]. split; [by vm_compute |]. split.
  { destruct (multiprocess_hands (complete_tree malawi_maize ["999"; "1000"])
                ["999"; "1000"] "/in/" malawi_maize 2 malawi_maize_codes
                "/out/m" out_world) as [w1 H];
      [done | lia | by vm_compute | apply (bool_decide_unpack _); by vm_compute
      | apply (bool_decide_unpack _); by vm_compute | by vm_compute |].
    exists w1. intros nco ff elapsed. by rewrite H. }
  split; [by vm_compute |]. split; [by vm_compute |].
  destruct (multiprocess_hands (complete_tree malawi_maize ["1980"; "1980-b"])
              ["1980"; "1980-b"] "/in/" malawi_maize 2 malawi_maize_codes
              "/out/m" out_world) as [w1 H];
    [done | lia | by vm_compute | apply (bool_decide_unpack _); by vm_compute
    | apply (bool_decide_unpack _); by vm_compute | by vm_compute |].
  exists w1. intros nco ff elapsed. by rewrite H.
Qed.

(** ** main *)

Lemma assembled_or_unreadable_year tree ascdir vn dv yrs yr prod irr e :
  assembled_or_unreadable tree ascdir vn dv yrs = true →
  yr ∈ yrs → prod ∈ prod_lst → irr ∈ irr_lst →
  (readascii tree (table_path ascdir vn yr prod irr) dv (World ∅ [])).2
    = Raise e →
  e = FileError.
Proof.
  unfold assembled_or_unreadable. rewrite forallb_forall. intros H Hy Hp Hi Hr.
  apply list_elem_of_In in Hy, Hp, Hi.
  specialize (H yr Hy). rewrite forallb_forall in H.
  specialize (H prod Hp). rewrite forallb_forall in H.
  specialize (H irr Hi). rewrite Hr in H. by destruct e.
Qed.

(** The year names [getyrs] returns have no [/]. *)
Lemma split_no_slash (s : string) :
  Forall (λ x, no_slash x = true) (Py.split "/" s).
Proof.
  induction s as [| a s IH]; cbn [Py.split]; [by repeat constructor |].
  destruct (Ascii.eqb a "/") eqn:E; [by constructor |].
  destruct (Py.split "/" s) as [| x xs].
  - repeat constructor. cbn. by rewrite E.
  - inversion IH; subst. constructor; [| done]. cbn. by rewrite E.
Qed.

Lemma neg_index_elem {A} (l : list A) k x : Py.neg_index l k = Some x → x ∈ l.
Proof.
  unfold Py.neg_index. case_decide; [| done]. apply list_elem_of_lookup_2.
Qed.

Lemma getyrs_no_slash tree locdir :
  Forall (λ y, no_slash y = true) (getyrs tree locdir).
Proof.
  unfold getyrs.
  cut (∀ (l : list (string * nat)) acc,
         Forall (λ y, no_slash y = true) acc →
         Forall (λ y, no_slash y = true)
           (foldl (fun yrs (fol : string * nat) =>
                     if decide (120 ≤ fol.2)%nat then
                       match Py.neg_index (Py.split "/"%char fol.1) 1 with
                       | Some yr => if String.eqb yr "" then yrs else yrs ++ [yr]
                       | None => yrs
                       end
                     else yrs) acc l)).
  { intros Hc. apply Hc. constructor. }
  induction l as [| fol l IH]; intros yrs H; [done |].
  cbn [foldl]. apply IH. case_decide; [| done].
  destruct (Py.neg_index _ 1) as [yr |] eqn:E; [| done].
  destruct (String.eqb yr ""); [done |].
  apply Forall_app. split; [done |]. constructor; [| constructor].
  apply neg_index_elem in E. pose proof (split_no_slash fol.1) as Hs.
  rewrite Forall_forall in Hs. by apply Hs.
Qed.

(** C3, amended.  Let the scenario names be known, the output stem and
    the year names be without [%] and the output directory be there, and
    let a raw table of a year that [getyrs] selects (its directory still
    holds at least 120 files) be missing or unreadable, every other table
    of the selected years being assembled by [readascii] or unreadable as
    well.  Then the run, with any number of processes, whichever failed
    task finishes first, ends in [FileError], and the final path is as it
    was before the run. *)
Theorem unreadable_table_aborts_run nco tree ascdir vn procs outfil
    first_failed elapsed dv yr prod irr w :
  lookup_dimvals vn = Some dv →
  no_percent outfil = true →
  Forall (λ y, no_percent y = true) (getyrs tree ascdir) →
  dir_ready (files w) (outfil +:+ ".nc") = true →
  yr ∈ getyrs tree ascdir → prod ∈ prod_lst → irr ∈ irr_lst →
  read_csv tree (table_path ascdir vn yr prod irr) = Raise FileError →
  assembled_or_unreadable tree ascdir vn dv (getyrs tree ascdir) = true →
  ∃ w', main nco tree ascdir vn procs outfil first_failed elapsed w
        = (w', Raise FileError)
        ∧ files w' !! (outfil +:+ ".nc") = files w !! (outfil +:+ ".nc").
Proof.
  intros Hdv Ho Hys Hdir Hy Hp Hi Hread Hall. unfold main, lookup_dimvals in *.
  rewrite bind_eq, Hdv. cbn [lift of_option].
  set (ind := Indata (getyrs tree ascdir) ascdir vn procs dv outfil).
  set (a := Args vn ascdir dv outfil).
  assert (task_spec
            (λ w, Forall (λ y, dir_ready (files w) (outnm outfil y) = true)
                         (getyrs tree ascdir))
            (year_assembled tree) (λ e, e = FileError) (fullyr tree)
            (λ x, outnm outfil x.1)
            (map (λ yr, (yr, a)) (getyrs tree ascdir))) as Hspec.
  { apply (fullyr_task_spec tree a (getyrs tree ascdir)); [done | done |].
    intros yr' prod' irr' e Hy' Hp' Hi' Hr.
    by eapply assembled_or_unreadable_year. }
  assert (Forall (λ y, dir_ready (files w) (outnm outfil y) = true)
                 (getyrs tree ascdir)) as Hdirs.
  { eapply Forall_impl; [apply getyrs_no_slash |].
    intros y Hns. cbv beta in Hns. by rewrite dir_ready_outnm. }
  assert (¬ Forall (year_assembled tree)
              (map (λ yr, (yr, a)) (getyrs tree ascdir))) as Hbad.
  { rewrite Forall_forall. intros HQ.
    specialize (HQ (yr, a) ltac:(apply list_elem_of_fmap; by exists yr)
                   prod irr Hp Hi).
    cbn [fst snd a_ascdir a_valnames a_dimvals a] in HQ.
    by rewrite (readascii_unreadable _ _ _ _ _ Hread) in HQ. }
  destruct (Z.ltb_spec 1 procs) as [Hprocs | Hprocs].
  - assert (in_yrs ind ≠ []) as Hne.
    { unfold ind. cbn [in_yrs]. intros E. rewrite E in Hy.
      by apply elem_of_nil in Hy. }
    destruct (multiprocess_chunks tree ind Hne ltac:(cbn; lia))
      as (chunks & Hcat & ->).
    cbn [in_yrs in_valnames in_ascdir in_dimvals in_outfil ind] in Hcat.
    fold a in Hcat. rewrite <- Hcat in Hspec, Hbad.
    destruct (chunks_spec _ _ _ first_failed _ _ chunks [] w Hspec Hdirs)
      as [w' [(HQ & _) | (_ & e & -> & Hrun)]]; [done |].
    exists w'. rewrite bind_eq, Hrun. split; [done |].
    pose proof (pool_years_keeps_final tree ind first_failed chunks
                  ltac:(by rewrite Hcat) Ho Hys w) as Hk.
    by rewrite Hrun in Hk.
  - rewrite singleprocess_eq, bind_eq. unfold collect_years.
    cbn [in_yrs in_valnames in_ascdir in_dimvals in_outfil ind]. fold a.
    pose proof (collect_years_keeps_final tree ind Ho Hys w) as Hk.
    unfold collect_years in Hk.
    cbn [in_yrs in_valnames in_ascdir in_dimvals in_outfil ind] in Hk.
    fold a in Hk.
    destruct (loop_spec _ _ _ _ _ _ [] w Hspec Hdirs)
      as [w' [(HQ & _) | (_ & e & -> & Hrun)]]; [done |].
    rewrite Hrun in Hk |- *. by exists w'.
Qed.

Lemma unreadable_table_aborts_run_witness :
  ∃ w', main nco_example tree_replaced "/in/" malawi_maize 2 "/out/m"
          in_order 0 out_world = (w', Raise FileError)
        ∧ files w' !! "/out/m.nc" = files out_world !! "/out/m.nc".
Proof.
  apply (unreadable_table_aborts_run nco_example tree_replaced "/in/"
           malawi_maize 2 "/out/m" in_order 0 malawi_maize_codes
           "1981" "1" "2" out_world).
  - by vm_compute.
  - by vm_compute.
  - apply (bool_decide_unpack _). by vm_compute.
  - by vm_compute.
  - apply (bool_decide_unpack _). by vm_compute.
  - apply (bool_decide_unpack _). by vm_compute.
  - apply (bool_decide_unpack _). by vm_compute.
  - by vm_compute.
  - by vm_compute.
Defined.

Lemma short_year_skipped_counterexample :
  read_csv tree_missing (table_path "/in/" malawi_maize "1981" "1" "2")
    = Raise FileError
  ∧ getyrs tree_missing "/in/" = ["1980"]
  ∧ (main nco_example tree_missing "/in/" malawi_maize 1 "/out/m"
       in_order 0 out_world).2 = Ok tt
  ∧ is_Some (files (main nco_example tree_missing "/in/" malawi_maize 1
                      "/out/m" in_order 0 out_world).1 !! "/out/m.nc").
Proof.
  split; [by vm_compute |]. split; [by vm_compute |]. split; [by vm_compute |].
  vm_compute. eauto.
Qed.
